(** * nofx-bp: the multi-timeframe candle cache and the signal detector

    A shallow embedding of [market/kline_cache.go] and
    [market/signal_detector.go], and the properties of the specification
    that were checked against it.

    Conventions of the embedding.
    - Go's [float64] is Rocq's primitive binary64 [float]; every arithmetic
      operation and comparison of the source is the IEEE 754 one.
    - Go's [int] and [int64] are [Z]; the code only compares open times and
      adds small constants to confidences, so no operation of the model can
      leave the 64-bit range.
    - Go maps are stdpp's [gmap]; a lookup of an absent key yields Go's zero
      value, written with [default].
    - A slice is the list of its elements.  The stored series of different
      timeframes come from different provider calls and share no backing
      array, so the in-place store of [UpdateSymbol] is a list update.
    - [log.Printf] has no effect on the state and is left out. *)

From Stdlib Require Import ZArith Floats Ascii String.
From stdpp Require Import gmap strings list fin_maps sorting.

Set Warnings "-inexact-float".
Set Warnings "-clear-no-such-hyp".

(** ** Data model *)

(** [type TimeFrame string] *)
Abbreviation TimeFrame := string (only parsing).

Definition TimeFrame5m : TimeFrame := "5m".
Definition TimeFrame15m : TimeFrame := "15m".
Definition TimeFrame30m : TimeFrame := "30m".
Definition TimeFrame1h : TimeFrame := "1h".
Definition TimeFrame4h : TimeFrame := "4h".
Definition TimeFrame1d : TimeFrame := "1d".

Definition TimeFrameMinutes : gmap string Z :=
  {[ TimeFrame5m := 5%Z; TimeFrame15m := 15%Z; TimeFrame30m := 30%Z;
     TimeFrame1h := 60%Z; TimeFrame4h := 240%Z; TimeFrame1d := 1440%Z ]}.

Definition BinanceIntervalMap : gmap string string :=
  {[ TimeFrame5m := "5m"; TimeFrame15m := "15m"; TimeFrame30m := "30m";
     TimeFrame1h := "1h"; TimeFrame4h := "4h"; TimeFrame1d := "1d" ]}.

(** Modelled from the spec: the declaration of [Kline] is not in the sources
    at hand.  The record has the fields the code reads ([OpenTime], [Open],
    [High], [Low], [Close], [Volume]): an integer open time in epoch
    milliseconds and five floating-point values. *)
Record Kline := {
  OpenTime : Z;
  Open : float;
  High : float;
  Low : float;
  Close : float;
  Volume : float
}.

(** Modelled from the spec: [APIClient.GetKlines(symbol, interval, limit)]
    is not in the sources at hand.  A client is what the provider answers
    while one cache operation runs: [None] is a failed fetch, [Some klines]
    the candles returned. *)
Definition APIClient := string -> string -> Z -> option (list Kline).

(** [MultiTimeFrameKline]; the mutexes are not part of the sequential state. *)
Record MultiTimeFrameKline := {
  Symbol : string;
  Data : gmap string (list Kline)
}.

(** The [cache] field of [KlineCache]. *)
Abbreviation KlineCache := (gmap string MultiTimeFrameKline) (only parsing).

(** The errors built with [fmt.Errorf], by their format string. *)
Inductive error :=
| ErrSymbolNotInitialized (symbol : string)
    (* "symbol %s not initialized" *)
| ErrTimeFrameNotFound (timeFrame : TimeFrame) (symbol : string)
    (* "timeframe %s not found for %s" *)
| ErrNoKlines.
    (* "no klines available" *)

(** The outcome of a call that returns [(value, error)]; [Panic] is a Go
    run-time panic (a slice expression out of range). *)
Inductive result (A : Type) :=
| Ok (a : A)
| Err (e : error)
| Panic.
Arguments Ok {A} a.
Arguments Err {A} e.
Arguments Panic {A}.

(** The slice expression [s[low:]]: in range when [0 <= low <= len(s)]. *)
Definition slice_from {A} (s : list A) (low : Z) : result (list A) :=
  if ((0 <=? low)%Z && (low <=? Z.of_nat (length s))%Z)%bool
  then Ok (drop (Z.to_nat low) s)
  else Panic.

(** ** The candle cache *)

Definition timeFrames : list TimeFrame :=
  [TimeFrame5m; TimeFrame15m; TimeFrame30m; TimeFrame1h; TimeFrame4h; TimeFrame1d].

(** One iteration of the loop of [InitSymbol]. *)
Definition initTimeFrame (client : APIClient) (symbol : string) (maxKlines : Z)
    (data : gmap string (list Kline)) (tf : TimeFrame) : gmap string (list Kline) :=
  let interval := default ""%string (BinanceIntervalMap !! tf) in
  match client symbol interval maxKlines with
  | None => data
  | Some klines => <[tf := klines]> data
  end.

Definition InitSymbol (client : APIClient) (symbol : string) (maxKlines : Z)
    (kc : KlineCache) : KlineCache * option error :=
  match kc !! symbol with
  | Some _ => (kc, None)
  | None =>
    let mtk := {| Symbol := symbol;
                  Data := foldl (initTimeFrame client symbol maxKlines) ∅ timeFrames |} in
    (<[symbol := mtk]> kc, None)
  end.

Definition maxKeep : nat := 20.

(** One iteration of the loop of [UpdateSymbol].  [last l = None] is
    [len(l) == 0]. *)
Definition updateTimeFrame (client : APIClient) (symbol : string)
    (data : gmap string (list Kline)) (tf : TimeFrame) : gmap string (list Kline) :=
  let interval := default ""%string (BinanceIntervalMap !! tf) in
  match client symbol interval 2%Z with
  | None => data
  | Some newKlines =>
    match last newKlines with
    | None => data
    | Some lastNew =>
      let existingKlines := default [] (data !! tf) in
      match last existingKlines with
      | None => <[tf := newKlines]> data
      | Some lastExisting =>
        let data1 :=
          if (OpenTime lastExisting <? OpenTime lastNew)%Z
          then <[tf := existingKlines ++ newKlines]> data
          else <[tf := <[(length existingKlines - 1)%nat := lastNew]> existingKlines]> data in
        let cur := default [] (data1 !! tf) in
        if (maxKeep <? length cur)%nat
        then <[tf := drop (length cur - maxKeep) cur]> data1
        else data1
      end
    end
  end.

Definition UpdateSymbol (client : APIClient) (symbol : string)
    (kc : KlineCache) : KlineCache * option error :=
  match kc !! symbol with
  | None => (kc, Some (ErrSymbolNotInitialized symbol))
  | Some mtk =>
    let data := foldl (updateTimeFrame client symbol) (Data mtk) timeFrames in
    (<[symbol := {| Symbol := Symbol mtk; Data := data |}]> kc, None)
  end.

Definition GetKlines (kc : KlineCache) (symbol : string) (timeFrame : TimeFrame)
    (limit : Z) : result (list Kline) :=
  match kc !! symbol with
  | None => Err (ErrSymbolNotInitialized symbol)
  | Some mtk =>
    match Data mtk !! timeFrame with
    | None => Err (ErrTimeFrameNotFound timeFrame symbol)
    | Some klines =>
      if (Z.of_nat (length klines) <=? limit)%Z
      then Ok klines
      else slice_from klines (Z.of_nat (length klines) - limit)
    end
  end.

Definition GetLatestKline (kc : KlineCache) (symbol : string) (timeFrame : TimeFrame)
    : result Kline :=
  match GetKlines kc symbol timeFrame 1 with
  | Err e => Err e
  | Panic => Panic
  | Ok klines =>
    match klines with
    | [] => Err ErrNoKlines
    | k :: _ => Ok k
    end
  end.

Definition GetLatestTwoKlines (kc : KlineCache) (symbol : string) (timeFrame : TimeFrame)
    : result (list Kline) :=
  GetKlines kc symbol timeFrame 2.

(** ** The signal detector *)

(** Go's [math.Abs], [math.Max] and [math.Min] on [float64], with the
    special cases their documentation lists. *)
Module math.

Definition Abs (x : float) : float := PrimFloat.abs x.

Definition Max (x y : float) : float :=
  if (x =? infinity)%float || (y =? infinity)%float then infinity
  else if is_nan x || is_nan y then nan
  else if (x =? 0)%float && (x =? y)%float then (if get_sign x then y else x)
  else if (y <? x)%float then x else y.

Definition Min (x y : float) : float :=
  if (x =? neg_infinity)%float || (y =? neg_infinity)%float then neg_infinity
  else if is_nan x || is_nan y then nan
  else if (x =? 0)%float && (x =? y)%float then (if get_sign x then x else y)
  else if (x <? y)%float then x else y.

End math.

(** [type SignalType string] *)
Definition SignalBullishPinBar : string := "bullish_pin_bar".
Definition SignalBearishPinBar : string := "bearish_pin_bar".
Definition SignalVolumeSpike : string := "volume_spike".
Definition SignalEngulfing : string := "engulfing".

(** The [Reason] of a signal: which format string built it, and the
    floating-point arguments given to [fmt.Sprintf] (the rendering of a
    float as decimal text is not modelled). *)
Inductive reason :=
| ReasonBullishPinBar (lowerPct bodyPct : float)
| ReasonBearishPinBar (upperPct bodyPct : float)
| ReasonVolumeSpike (volumeRatio prevVolume currentVolume : float)
| ReasonBullishEngulfing
| ReasonBearishEngulfing.

Module TradingSignal.
Record t := mk {
  Symbol : string;
  TimeFrame : string;
  SignalType : string;
  Direction : string;
  Price : float;
  StopLoss : float;
  Confidence : Z;
  Reason : reason
}.
End TradingSignal.

Definition calculatePinBarConfidence
    (shadowLength body oppositeShadow totalRange : float) : Z :=
  let confidence := 60%Z in
  let shadowRatio := (shadowLength / totalRange)%float in
  let confidence :=
    if (0.7 <? shadowRatio)%float then (confidence + 25)%Z
    else if (0.6 <? shadowRatio)%float then (confidence + 20)%Z
    else if (0.5 <? shadowRatio)%float then (confidence + 15)%Z
    else confidence in
  let bodyRatio := (body / totalRange)%float in
  let confidence :=
    if (bodyRatio <? 0.15)%float then (confidence + 10)%Z
    else if (bodyRatio <? 0.25)%float then (confidence + 5)%Z
    else confidence in
  let confidence :=
    if (oppositeShadow <? body * 0.5)%float then (confidence + 5)%Z
    else confidence in
  if (100 <? confidence)%Z then 100%Z else confidence.

(** The two tests of [DetectPinBar], on the four lengths of a candle. *)
Definition bullishPinBar (body upperShadow lowerShadow totalRange : float) : bool :=
  (body * 1.5 <? lowerShadow)%float && (body <? totalRange * 0.3)%float
  && (upperShadow <? body)%float.

Definition bearishPinBar (body upperShadow lowerShadow totalRange : float) : bool :=
  (body * 1.5 <? upperShadow)%float && (body <? totalRange * 0.3)%float
  && (lowerShadow <? body)%float.

(** The four lengths [DetectPinBar] computes from a candle. *)
Definition klineBody (kline : Kline) : float :=
  math.Abs (Close kline - Open kline)%float.
Definition klineUpperShadow (kline : Kline) : float :=
  (High kline - math.Max (Open kline) (Close kline))%float.
Definition klineLowerShadow (kline : Kline) : float :=
  (math.Min (Open kline) (Close kline) - Low kline)%float.
Definition klineTotalRange (kline : Kline) : float :=
  (High kline - Low kline)%float.

(** The part of [DetectPinBar] that follows the cache read. *)
Definition pinBarSignals (symbol : string) (timeFrame : TimeFrame) (kline : Kline)
    : list TradingSignal.t :=
  let body := klineBody kline in
  let upperShadow := klineUpperShadow kline in
  let lowerShadow := klineLowerShadow kline in
  let totalRange := klineTotalRange kline in
  if (totalRange =? 0)%float || (body =? 0)%float then []
  else
    let signals := [] in
    let signals :=
      if bullishPinBar body upperShadow lowerShadow totalRange then
        let confidence := calculatePinBarConfidence lowerShadow body upperShadow totalRange in
        signals ++ [TradingSignal.mk symbol timeFrame SignalBullishPinBar "long"
                      (Close kline) (Low kline * 0.997)%float confidence
                      (ReasonBullishPinBar (lowerShadow / totalRange * 100)%float
                                           (body / totalRange * 100)%float)]
      else signals in
    let signals :=
      if bearishPinBar body upperShadow lowerShadow totalRange then
        let confidence := calculatePinBarConfidence upperShadow body lowerShadow totalRange in
        signals ++ [TradingSignal.mk symbol timeFrame SignalBearishPinBar "short"
                      (Close kline) (High kline * 1.003)%float confidence
                      (ReasonBearishPinBar (upperShadow / totalRange * 100)%float
                                           (body / totalRange * 100)%float)]
      else signals in
    signals.

(** [GetLatestKline] asks for one candle, a limit that cannot make the slice
    expression of [GetKlines] panic (lemma [GetLatestKline_no_panic]). *)
Definition DetectPinBar (kc : KlineCache) (symbol : string) (timeFrame : TimeFrame)
    : list TradingSignal.t :=
  match GetLatestKline kc symbol timeFrame with
  | Ok kline => pinBarSignals symbol timeFrame kline
  | Err _ | Panic => []
  end.

Definition calculateStopLoss (kline : Kline) (direction : string) : float :=
  if String.eqb direction "long" then (Low kline * 0.997)%float
  else (High kline * 1.003)%float.

Definition volumeSpikeSignals (symbol : string) (timeFrame : TimeFrame)
    (prevKline currentKline : Kline) : list TradingSignal.t :=
  if (Volume prevKline =? 0)%float then []
  else
    let volumeRatio := (Volume currentKline / Volume prevKline)%float in
    if (1.5 <=? volumeRatio)%float then
      let direction :=
        if (Close currentKline <? Open currentKline)%float then "short" else "long" in
      let confidence :=
        if (3.0 <=? volumeRatio)%float then 95%Z
        else if (2.5 <=? volumeRatio)%float then 90%Z
        else if (2.0 <=? volumeRatio)%float then 85%Z
        else if (1.8 <=? volumeRatio)%float then 80%Z
        else 70%Z in
      [TradingSignal.mk symbol timeFrame SignalVolumeSpike direction
         (Close currentKline) (calculateStopLoss currentKline direction) confidence
         (ReasonVolumeSpike volumeRatio (Volume prevKline) (Volume currentKline))]
    else [].

(** [klines[0]] and [klines[1]] of a result that holds two candles; the
    limit 2 lets [GetKlines] return no more. *)
Definition DetectVolumeSpike (kc : KlineCache) (symbol : string) (timeFrame : TimeFrame)
    : list TradingSignal.t :=
  match GetLatestTwoKlines kc symbol timeFrame with
  | Ok (prevKline :: currentKline :: _) =>
      volumeSpikeSignals symbol timeFrame prevKline currentKline
  | _ => []
  end.

Definition bullishEngulfing (prevKline currentKline : Kline) : bool :=
  let prevBody := math.Abs (Close prevKline - Open prevKline)%float in
  let currentBody := math.Abs (Close currentKline - Open currentKline)%float in
  (Close prevKline <? Open prevKline)%float
  && (Open currentKline <? Close currentKline)%float
  && (Open currentKline <? Close prevKline)%float
  && (Open prevKline <? Close currentKline)%float
  && (prevBody <? currentBody)%float.

Definition bearishEngulfing (prevKline currentKline : Kline) : bool :=
  let prevBody := math.Abs (Close prevKline - Open prevKline)%float in
  let currentBody := math.Abs (Close currentKline - Open currentKline)%float in
  (Open prevKline <? Close prevKline)%float
  && (Close currentKline <? Open currentKline)%float
  && (Close prevKline <? Open currentKline)%float
  && (Close currentKline <? Open prevKline)%float
  && (prevBody <? currentBody)%float.

Definition engulfingConfidence (prevBody currentBody : float) : Z :=
  if (prevBody * 1.5 <? currentBody)%float then 90%Z else 80%Z.

Definition engulfingSignals (symbol : string) (timeFrame : TimeFrame)
    (prevKline currentKline : Kline) : list TradingSignal.t :=
  let prevBody := math.Abs (Close prevKline - Open prevKline)%float in
  let currentBody := math.Abs (Close currentKline - Open currentKline)%float in
  let signals := [] in
  let signals :=
    if bullishEngulfing prevKline currentKline then
      signals ++ [TradingSignal.mk symbol timeFrame SignalEngulfing "long"
                    (Close currentKline) (Low currentKline * 0.995)%float
                    (engulfingConfidence prevBody currentBody) ReasonBullishEngulfing]
    else signals in
  let signals :=
    if bearishEngulfing prevKline currentKline then
      signals ++ [TradingSignal.mk symbol timeFrame SignalEngulfing "short"
                    (Close currentKline) (High currentKline * 1.005)%float
                    (engulfingConfidence prevBody currentBody) ReasonBearishEngulfing]
    else signals in
  signals.

Definition DetectEngulfing (kc : KlineCache) (symbol : string) (timeFrame : TimeFrame)
    : list TradingSignal.t :=
  match GetLatestTwoKlines kc symbol timeFrame with
  | Ok (prevKline :: currentKline :: _) =>
      engulfingSignals symbol timeFrame prevKline currentKline
  | _ => []
  end.

Definition DetectAllSignals (kc : KlineCache) (symbol : string)
    (timeFrames : list TimeFrame) : list TradingSignal.t :=
  foldl (fun signals tf =>
           ((signals ++ DetectPinBar kc symbol tf)
              ++ DetectVolumeSpike kc symbol tf)
             ++ DetectEngulfing kc symbol tf)
        [] timeFrames.

Definition FilterStrongSignals (signals : list TradingSignal.t) : list TradingSignal.t :=
  foldl (fun strongSignals signal =>
           if (80 <=? TradingSignal.Confidence signal)%Z
           then strongSignals ++ [signal] else strongSignals)
        [] signals.

(** [fmt.Sprintf("%s_%s_%s", signal.Symbol, signal.TimeFrame, signal.Direction)] *)
Definition signalKey (signal : TradingSignal.t) : string :=
  TradingSignal.Symbol signal +:+ "_" +:+ TradingSignal.TimeFrame signal
    +:+ "_" +:+ TradingSignal.Direction signal.

Definition CombineSignals (signals : list TradingSignal.t)
    : gmap string (list TradingSignal.t) :=
  foldl (fun combined signal =>
           let key := signalKey signal in
           <[key := default [] (combined !! key) ++ [signal]]> combined)
        ∅ signals.

(** ** Concurrent calls of [InitSymbol]

    Two goroutines call [InitSymbol] for the same symbol.  Each runs the
    statements of the function one at a time, and a schedule decides whose
    statement is next; [kc.mu] is a mutex, so [Lock] proceeds only while no
    one holds it and a caller that finds it held waits.  Every caller also
    records the provider calls it makes. *)

Inductive caller := First | Second.

Definition other (c : caller) : caller :=
  match c with First => Second | Second => First end.

#[global] Instance caller_eq_dec : EqDecision caller.
Proof. solve_decision. Defined.

(** Where a caller stands in [InitSymbol]. *)
Inductive position :=
| AtLock
    (* kc.mu.Lock() *)
| AtCheck
    (* if _, exists := kc.cache[symbol]; exists { return nil } *)
| AtFetch (data : gmap string (list Kline)) (rest : list string)
    (* the loop: mtk.Data so far and the timeframes still to fetch;
       with none left, kc.cache[symbol] = mtk *)
| AtUnlock
    (* the deferred kc.mu.Unlock(), then return nil *)
| Returned (err : option error).

(** A caller: where it stands, whether its check found a record for the
    symbol, and the provider calls it has made. *)
Record goroutine := {
  at_ : position;
  found : bool;
  fetches : list (string * string * Z)
}.

Record system := {
  sys_cache : gmap string MultiTimeFrameKline;
  sys_mu : option caller;
  sys_first : goroutine;
  sys_second : goroutine
}.

Definition goroutineOf (st : system) (c : caller) : goroutine :=
  match c with First => sys_first st | Second => sys_second st end.

Definition setGoroutine (st : system) (c : caller) (g : goroutine) : system :=
  match c with
  | First => {| sys_cache := sys_cache st; sys_mu := sys_mu st;
                sys_first := g; sys_second := sys_second st |}
  | Second => {| sys_cache := sys_cache st; sys_mu := sys_mu st;
                 sys_first := sys_first st; sys_second := g |}
  end.

Definition setMu (st : system) (mu : option caller) : system :=
  {| sys_cache := sys_cache st; sys_mu := mu;
     sys_first := sys_first st; sys_second := sys_second st |}.

Definition setCache (st : system) (kc : gmap string MultiTimeFrameKline) : system :=
  {| sys_cache := kc; sys_mu := sys_mu st;
     sys_first := sys_first st; sys_second := sys_second st |}.

(** One statement of caller [c], with the provider as it answers at that
    moment.  A caller that waits for the mutex, or has returned, stays where
    it is. *)
Definition step (symbol : string) (maxKlines : caller -> Z)
    (c : caller) (client : APIClient) (st : system) : system :=
  let g := goroutineOf st c in
  let goto p := {| at_ := p; found := found g; fetches := fetches g |} in
  match at_ g with
  | AtLock =>
    match sys_mu st with
    | None => setGoroutine (setMu st (Some c)) c (goto AtCheck)
    | Some _ => st
    end
  | AtCheck =>
    match sys_cache st !! symbol with
    | Some _ =>
      setGoroutine st c {| at_ := AtUnlock; found := true; fetches := fetches g |}
    | None => setGoroutine st c (goto (AtFetch ∅ timeFrames))
    end
  | AtFetch data (tf :: rest) =>
    let interval := default ""%string (BinanceIntervalMap !! tf) in
    setGoroutine st c
      {| at_ := AtFetch (initTimeFrame client symbol (maxKlines c) data tf) rest;
         found := found g;
         fetches := fetches g ++ [(symbol, interval, maxKlines c)] |}
  | AtFetch data [] =>
    setGoroutine
      (setCache st (<[symbol := {| Symbol := symbol; Data := data |}]> (sys_cache st)))
      c (goto AtUnlock)
  | AtUnlock => setGoroutine (setMu st None) c (goto (Returned None))
  | Returned _ => st
  end.

Definition run (symbol : string) (maxKlines : caller -> Z)
    (schedule : list (caller * APIClient)) (st : system) : system :=
  foldl (fun st ev => step symbol maxKlines ev.1 ev.2 st) st schedule.

(** Both callers are about to enter [InitSymbol]. *)
Definition initial (kc : gmap string MultiTimeFrameKline) : system :=
  {| sys_cache := kc; sys_mu := None;
     sys_first := {| at_ := AtLock; found := false; fetches := [] |};
     sys_second := {| at_ := AtLock; found := false; fetches := [] |} |}.

(** The provider calls of one full initialization. *)
Definition fullFetch (symbol : string) (maxKlines : Z) : list (string * string * Z) :=
  (fun tf => (symbol, default ""%string (BinanceIntervalMap !! tf), maxKlines))
    <$> timeFrames.

(** The statements a caller has left when no one is in its way. *)
Definition stepsLeft (p : position) : nat :=
  match p with
  | AtLock => 10
  | AtCheck => 9
  | AtFetch _ rest => 2 + length rest
  | AtUnlock => 1
  | Returned _ => 0
  end.

(** What holds of a caller in every reachable state, for a symbol that was
    unknown at the start. *)
Definition goroutineOk (symbol : string) (maxKlines : Z) (me : caller)
    (st : system) (g : goroutine) : Prop :=
  match at_ g with
  | AtLock => sys_mu st <> Some me /\ found g = false /\ fetches g = []
  | AtCheck => sys_mu st = Some me /\ found g = false /\ fetches g = []
  | AtFetch _ rest =>
      sys_mu st = Some me /\ sys_cache st !! symbol = None /\ found g = false
      /\ exists done, done ++ rest = timeFrames
           /\ fetches g
              = (fun tf => (symbol, default ""%string (BinanceIntervalMap !! tf),
                            maxKlines)) <$> done
  | AtUnlock =>
      sys_mu st = Some me /\ is_Some (sys_cache st !! symbol)
      /\ ((found g = true /\ fetches g = [])
          \/ (found g = false /\ fetches g = fullFetch symbol maxKlines))
  | Returned err =>
      err = None /\ sys_mu st <> Some me /\ is_Some (sys_cache st !! symbol)
      /\ ((found g = true /\ fetches g = [])
          \/ (found g = false /\ fetches g = fullFetch symbol maxKlines))
  end.

Definition systemOk (symbol : string) (maxKlines : caller -> Z) (st : system) : Prop :=
  (forall c, goroutineOk symbol (maxKlines c) c st (goroutineOf st c))
  /\ (sys_cache st !! symbol = None ->
      forall c, sys_mu st <> Some c -> fetches (goroutineOf st c) = [])
  /\ (is_Some (sys_cache st !! symbol) ->
      (fetches (sys_first st) = fullFetch symbol (maxKlines First)
       /\ fetches (sys_second st) = [])
      \/ (fetches (sys_first st) = []
          /\ fetches (sys_second st) = fullFetch symbol (maxKlines Second))).


(** At one statement of a schedule, the provider answers the requests of
    the caller for the symbol as [client] does. *)
Definition answersAs (symbol : string) (maxKlines : caller -> Z) (client : APIClient)
    (ev : caller * APIClient) : Prop :=
  forall interval : string,
    ev.2 symbol interval (maxKlines ev.1) = client symbol interval (maxKlines ev.1).

(** What holds of the candles in every reachable state, for a symbol that
    was unknown at the start, while the provider answers as [client]: a
    caller in the loop holds the answers to its requests so far, and the
    cache is the one the callers started from until the caller that fetched
    installs its record. *)
Definition cacheOk (symbol : string) (maxKlines : caller -> Z) (client : APIClient)
    (kc : gmap string MultiTimeFrameKline) (st : system) : Prop :=
  (forall c,
     match at_ (goroutineOf st c) with
     | AtFetch data rest =>
         exists done, done ++ rest = timeFrames
           /\ data = foldl (initTimeFrame client symbol (maxKlines c)) ∅ done
     | _ => True
     end)
  /\ match sys_cache st !! symbol with
     | None => sys_cache st = kc
     | Some _ =>
         exists winner,
           fetches (goroutineOf st winner) <> []
           /\ sys_cache st = fst (InitSymbol client symbol (maxKlines winner) kc)
     end.


(** ** Notions the properties are stated with *)

(** The truncation at the end of an iteration of [UpdateSymbol]: the most
    recent [maxKeep] candles. *)
Definition keepLatest (klines : list Kline) : list Kline :=
  if (maxKeep <? length klines)%nat
  then drop (length klines - maxKeep) klines
  else klines.

(** What one iteration of the loop of [UpdateSymbol] does to the series of
    its timeframe (lemma [updateTimeFrame_lookup]): [fetched] is the answer
    of the provider, [stored] the entry of the map before the iteration. *)
Definition mergeSeries (fetched : option (list Kline)) (stored : option (list Kline))
    : option (list Kline) :=
  match fetched with
  | None => stored
  | Some newKlines =>
    match last newKlines with
    | None => stored
    | Some lastNew =>
      let existingKlines := default [] stored in
      match last existingKlines with
      | None => Some newKlines
      | Some lastExisting =>
        let merged :=
          if (OpenTime lastExisting <? OpenTime lastNew)%Z
          then existingKlines ++ newKlines
          else <[(length existingKlines - 1)%nat := lastNew]> existingKlines in
        Some (keepLatest merged)
      end
    end
  end.

(** The mantissa of the binary64 number 1.5, which is [c15 * 2^-52]. *)
Definition c15 : positive := 6755399441055744.

(** Two signals agree on symbol, timeframe and direction. *)
Definition sameGroup (s1 s2 : TradingSignal.t) : Prop :=
  TradingSignal.Symbol s1 = TradingSignal.Symbol s2
  /\ TradingSignal.TimeFrame s1 = TradingSignal.TimeFrame s2
  /\ TradingSignal.Direction s1 = TradingSignal.Direction s2.

#[global] Instance sameGroup_dec s1 s2 : Decision (sameGroup s1 s2).
Proof. unfold sameGroup. apply _. Defined.

(** The number of separators of [signalKey] in a string, and the strings
    without one. *)
Fixpoint underscores (s : string) : nat :=
  match s with
  | EmptyString => 0
  | String c s' => (if Ascii.eqb c "_" then 1 else 0) + underscores s'
  end.

Definition underscoreFree (s : string) : Prop := underscores s = 0.

(** A series in chronological order with unique open times. *)
Definition ascending (klines : list Kline) : Prop :=
  StronglySorted (fun a b => (OpenTime a < OpenTime b)%Z) klines.

(** The provider answers with at most as many candles as it is asked for. *)
Definition honours_limit (client : APIClient) : Prop :=
  forall symbol interval limit klines,
    client symbol interval limit = Some klines ->
    (Z.of_nat (length klines) <= limit)%Z.

(** Every answer of the provider is chronologically ordered with unique
    open times. *)
Definition ordered_responses (client : APIClient) : Prop :=
  forall symbol interval limit klines,
    client symbol interval limit = Some klines -> ascending klines.

(** Every answer of the provider holds at most [n] candles. *)
Definition bounded_responses (n : nat) (client : APIClient) : Prop :=
  forall symbol interval limit klines,
    client symbol interval limit = Some klines -> length klines <= n.

(** A response continues a stored series when its latest candle is the
    stored latest one, still forming, or when all its candles are newer
    than the stored latest one. *)
Definition continues (stored response : list Kline) : Prop :=
  match last stored, last response with
  | Some lastExisting, Some lastNew =>
      OpenTime lastNew = OpenTime lastExisting
      \/ Forall (fun k => (OpenTime lastExisting < OpenTime k)%Z) response
  | _, _ => True
  end.

(** A write to the cache, with the provider as it answers during the call. *)
Inductive call :=
| CallInitSymbol (client : APIClient) (symbol : string) (maxKlines : Z)
| CallUpdateSymbol (client : APIClient) (symbol : string).

Definition runCall (kc : gmap string MultiTimeFrameKline) (c : call)
    : gmap string MultiTimeFrameKline :=
  match c with
  | CallInitSymbol client symbol maxKlines => fst (InitSymbol client symbol maxKlines kc)
  | CallUpdateSymbol client symbol => fst (UpdateSymbol client symbol kc)
  end.

Definition runCalls (kc : gmap string MultiTimeFrameKline) (calls : list call)
    : gmap string MultiTimeFrameKline :=
  foldl runCall kc calls.

Definition callClient (c : call) : APIClient :=
  match c with
  | CallInitSymbol client _ _ => client
  | CallUpdateSymbol client _ => client
  end.

(** The responses an update merges continue the series they are merged
    into. *)
Definition continuing (kc : gmap string MultiTimeFrameKline) (c : call) : Prop :=
  match c with
  | CallInitSymbol _ _ _ => True
  | CallUpdateSymbol client symbol =>
      forall mtk tf stored response,
        kc !! symbol = Some mtk -> Data mtk !! tf = Some stored ->
        client symbol tf 2%Z = Some response ->
        continues stored response
  end.

Fixpoint continuing_run (kc : gmap string MultiTimeFrameKline) (calls : list call) : Prop :=
  match calls with
  | [] => True
  | c :: rest => continuing kc c /\ continuing_run (runCall kc c) rest
  end.


(** The series the cache holds for a symbol and a timeframe; empty, like a
    nil slice, when the symbol or the timeframe is missing. *)
Definition storedSeries (kc : gmap string MultiTimeFrameKline) (symbol : string)
    (timeFrame : TimeFrame) : list Kline :=
  match kc !! symbol with
  | None => []
  | Some mtk => default [] (Data mtk !! timeFrame)
  end.

(** The symbol of a write to the cache, and whether it is an initialization. *)
Definition callSymbol (c : call) : string :=
  match c with
  | CallInitSymbol _ symbol _ => symbol
  | CallUpdateSymbol _ symbol => symbol
  end.

Definition isInit (c : call) : bool :=
  match c with
  | CallInitSymbol _ _ _ => true
  | CallUpdateSymbol _ _ => false
  end.


(** The number of signals a grouping holds, over all its groups. *)
Definition groupedCount (combined : gmap string (list TradingSignal.t)) : nat :=
  map_fold (fun _ group n => length group + n) 0 combined.

(** ** Sample data

    Candles and caches the examples below run the code on. *)

Definition candle (openTime : Z) (open high low close volume : float) : Kline :=
  {| OpenTime := openTime; Open := open; High := high; Low := low;
     Close := close; Volume := volume |}.

(** Three consecutive five-minute candles, and the first of them while it
    was still forming. *)
Definition k1_forming : Kline := candle 300000 100 101 99 100.5 10.
Definition k1 : Kline := candle 300000 100 102 99 101 12.
Definition k2 : Kline := candle 600000 101 103 100 102 7.
Definition k3 : Kline := candle 900000 102 104 101 103 9.

(** A cache that holds one symbol with one series. *)
Definition cache_of (symbol : string) (tf : TimeFrame) (klines : list Kline)
    : gmap string MultiTimeFrameKline :=
  {[ symbol := {| Symbol := symbol; Data := {[ tf := klines ]} |} ]}.

(** A provider that answers [klines] for one interval and fails for the
    others. *)
Definition client_of (interval : string) (klines : list Kline) : APIClient :=
  fun _ i _ => if String.eqb i interval then Some klines else None.

(** A provider that holds one series for one interval and answers a request
    with its latest [limit] candles. *)
Definition latest_of (interval : string) (series : list Kline) : APIClient :=
  fun _ i limit =>
    if (String.eqb i interval && (0 <=? limit)%Z)%bool
    then Some (drop (length series - Z.to_nat limit) series)
    else None.

(** [n] consecutive five-minute candles. *)
Definition series (n : nat) : list Kline :=
  (fun i => candle (300000 * Z.of_nat (S i)) 100 101 99 100 1) <$> seq 0 n.

(** A schedule in which the second caller tries the mutex while the first
    holds it, and tries again during the loop of the first. *)
Definition interleaved : list (caller * APIClient) :=
  let client := client_of "5m" [k1; k2] in
  [(First, client); (Second, client); (First, client); (First, client);
   (Second, client); (First, client); (First, client); (First, client);
   (First, client); (First, client); (First, client); (First, client);
   (Second, client); (Second, client); (Second, client)].

(** Three signals for one symbol and timeframe, two of them long. *)
Definition sigEngulfing : TradingSignal.t :=
  TradingSignal.mk "BTC_USDC" "5m" SignalEngulfing "long" 107 97.51 90
    ReasonBullishEngulfing.
Definition sigSpikeShort : TradingSignal.t :=
  TradingSignal.mk "BTC_USDC" "5m" SignalVolumeSpike "short" 99 108.324 85
    (ReasonVolumeSpike 2 100 200).
Definition sigSpikeLong : TradingSignal.t :=
  TradingSignal.mk "BTC_USDC" "5m" SignalVolumeSpike "long" 107 97.706 70
    (ReasonVolumeSpike 1.5 100 150).

(** A hammer: a long lower shadow under a small body, and the signal
    [DetectPinBar] builds from it. *)
Definition hammer : Kline := candle 300000 100 101 90 100.8 10.
Definition sigHammer : TradingSignal.t :=
  TradingSignal.mk "BTCUSDT" "5m" SignalBullishPinBar "long" 100.8 (90 * 0.997) 100
    (ReasonBullishPinBar (klineLowerShadow hammer / klineTotalRange hammer * 100)
                         (klineBody hammer / klineTotalRange hammer * 100)).

(** * Properties *)

(** ** Reading the cache *)

Lemma slice_from_in_range {A} (s : list A) (low : Z) :
  (0 <= low <= Z.of_nat (length s))%Z ->
  slice_from s low = Ok (drop (Z.to_nat low) s).
Proof.
  intros [H0 H1]. unfold slice_from.
  destruct (Z.leb_spec 0 low); [|lia].
  destruct (Z.leb_spec low (Z.of_nat (length s))); [|lia].
  reflexivity.
Qed.

Lemma slice_from_out_of_range {A} (s : list A) (low : Z) :
  (Z.of_nat (length s) < low)%Z -> slice_from s low = Panic.
Proof.
  intros H. unfold slice_from.
  destruct (Z.leb_spec low (Z.of_nat (length s))); [lia|].
  by rewrite andb_false_r.
Qed.

(** What [GetKlines] returns on a stored series, for a limit that is a
    count. *)
Lemma GetKlines_stored (kc : KlineCache) symbol tf limit mtk klines :
  kc !! symbol = Some mtk -> Data mtk !! tf = Some klines -> (0 <= limit)%Z ->
  GetKlines kc symbol tf limit = Ok (drop (length klines - Z.to_nat limit) klines).
Proof.
  intros Hs Ht Hl. unfold GetKlines. rewrite Hs, Ht.
  destruct (Z.leb_spec (Z.of_nat (length klines)) limit) as [Hle|Hgt].
  - replace (length klines - Z.to_nat limit)%nat with 0%nat by lia. reflexivity.
  - rewrite slice_from_in_range by lia. do 2 f_equal. lia.
Qed.

(** A negative limit makes the slice expression of [GetKlines] panic as soon
    as the series holds a candle. *)
Lemma GetKlines_negative_limit_panics (kc : KlineCache) symbol tf limit mtk klines :
  kc !! symbol = Some mtk -> Data mtk !! tf = Some klines ->
  (limit < 0)%Z -> GetKlines kc symbol tf limit = Panic.
Proof.
  intros Hs Ht Hl. unfold GetKlines. rewrite Hs, Ht.
  destruct (Z.leb_spec (Z.of_nat (length klines)) limit); [lia|].
  apply slice_from_out_of_range. lia.
Qed.

Lemma GetKlines_never_no_data (kc : KlineCache) symbol tf limit :
  GetKlines kc symbol tf limit <> Err ErrNoKlines.
Proof.
  unfold GetKlines, slice_from.
  repeat case_match; congruence.
Qed.

Lemma GetLatestKline_no_panic (kc : KlineCache) symbol tf :
  GetLatestKline kc symbol tf <> Panic.
Proof.
  unfold GetLatestKline.
  destruct (kc !! symbol) as [mtk|] eqn:Hs.
  - destruct (Data mtk !! tf) as [klines|] eqn:Ht.
    + rewrite (GetKlines_stored kc symbol tf 1 mtk klines) by (done || lia).
      by destruct (drop _ klines).
    + unfold GetKlines. by rewrite Hs, Ht.
  - unfold GetKlines. by rewrite Hs.
Qed.

Lemma GetLatestTwoKlines_no_panic (kc : KlineCache) symbol tf :
  GetLatestTwoKlines kc symbol tf <> Panic.
Proof.
  unfold GetLatestTwoKlines.
  destruct (kc !! symbol) as [mtk|] eqn:Hs.
  - destruct (Data mtk !! tf) as [klines|] eqn:Ht.
    + by rewrite (GetKlines_stored kc symbol tf 2 mtk klines) by (done || lia).
    + unfold GetKlines. by rewrite Hs, Ht.
  - unfold GetKlines. by rewrite Hs.
Qed.

(** C5.  [GetKlines] fails with the not-initialized error exactly when the
    symbol has no record, with the unknown-timeframe error exactly when the
    symbol has a record without a series for the timeframe, and otherwise,
    for a limit that is a count, returns the last [min limit n] candles of
    the stored series of length [n], in the order of the series. *)
Theorem GetKlines_most_recent (kc : KlineCache) symbol tf limit :
  (GetKlines kc symbol tf limit = Err (ErrSymbolNotInitialized symbol)
     <-> kc !! symbol = None)
  /\ (GetKlines kc symbol tf limit = Err (ErrTimeFrameNotFound tf symbol)
     <-> exists mtk, kc !! symbol = Some mtk /\ Data mtk !! tf = None)
  /\ (forall mtk klines,
        kc !! symbol = Some mtk -> Data mtk !! tf = Some klines -> (0 <= limit)%Z ->
        exists older recent,
          GetKlines kc symbol tf limit = Ok recent
          /\ klines = older ++ recent
          /\ Z.of_nat (length recent) = Z.min limit (Z.of_nat (length klines))).
Proof.
  split; [|split].
  - unfold GetKlines, slice_from. split.
    + repeat case_match; congruence.
    + by intros ->.
  - unfold GetKlines, slice_from. split.
    + destruct (kc !! symbol) as [mtk|]; [|congruence].
      destruct (Data mtk !! tf) eqn:Ht; [repeat case_match; congruence|].
      eauto.
    + by intros (mtk & -> & ->).
  - intros mtk klines Hs Ht Hl.
    exists (take (length klines - Z.to_nat limit) klines),
           (drop (length klines - Z.to_nat limit) klines).
    split; [by apply (GetKlines_stored kc symbol tf limit mtk)|].
    split; [by rewrite take_drop|].
    rewrite length_drop. lia.
Qed.

Lemma GetKlines_most_recent_witness :
  exists older recent,
    GetKlines (cache_of "BTCUSDT" "5m" [k1; k2; k3]) "BTCUSDT" "5m" 2 = Ok recent
    /\ [k1; k2; k3] = older ++ recent
    /\ Z.of_nat (length recent) = Z.min 2 (Z.of_nat (length [k1; k2; k3])).
Proof.
  apply (proj2 (proj2 (GetKlines_most_recent
                         (cache_of "BTCUSDT" "5m" [k1; k2; k3]) "BTCUSDT" "5m" 2))
           {| Symbol := "BTCUSDT"; Data := {[ "5m" := [k1; k2; k3] ]} |}).
  - reflexivity.
  - reflexivity.
  - lia.
Defined.

(** ** The write path, one timeframe at a time *)

Lemma timeFrames_NoDup : NoDup timeFrames.
Proof. apply (bool_decide_unpack _). vm_compute. exact I. Qed.

Lemma interval_of_timeFrame (tf : string) :
  tf ∈ timeFrames -> default ""%string (BinanceIntervalMap !! tf) = tf.
Proof.
  unfold timeFrames. intros H.
  repeat (apply elem_of_cons in H as [->|H]; [reflexivity|]).
  by apply elem_of_nil in H.
Qed.

Lemma initTimeFrame_lookup client symbol maxKlines data (tf : string) :
  initTimeFrame client symbol maxKlines data tf !! tf
  = match client symbol (default ""%string (BinanceIntervalMap !! tf)) maxKlines with
    | Some klines => Some klines
    | None => data !! tf
    end.
Proof.
  unfold initTimeFrame. case_match; [by rewrite lookup_insert_eq|done].
Qed.

Lemma initTimeFrame_lookup_ne client symbol maxKlines data (tf tf' : string) :
  tf <> tf' -> initTimeFrame client symbol maxKlines data tf !! tf' = data !! tf'.
Proof.
  intros Hne. unfold initTimeFrame. case_match; [by rewrite lookup_insert_ne|done].
Qed.

Lemma updateTimeFrame_lookup client symbol data (tf : string) :
  updateTimeFrame client symbol data tf !! tf
  = mergeSeries (client symbol (default ""%string (BinanceIntervalMap !! tf)) 2%Z)
                (data !! tf).
Proof.
  unfold updateTimeFrame, mergeSeries, keepLatest.
  destruct (client _ _ _) as [newKlines|]; [|done].
  destruct (last newKlines) as [lastNew|]; [|done].
  destruct (last (default [] (data !! tf))) as [lastExisting|];
    [|by rewrite lookup_insert_eq].
  destruct (OpenTime lastExisting <? OpenTime lastNew)%Z;
    rewrite lookup_insert_eq; simpl;
    case_match; by rewrite lookup_insert_eq.
Qed.

Lemma updateTimeFrame_lookup_ne client symbol data (tf tf' : string) :
  tf <> tf' -> updateTimeFrame client symbol data tf !! tf' = data !! tf'.
Proof.
  intros Hne. unfold updateTimeFrame.
  repeat case_match; by rewrite ?lookup_insert_ne.
Qed.

Lemma foldl_initTimeFrame_lookup client symbol maxKlines (tfs : list string) (tf : string) :
  NoDup tfs -> forall data,
  foldl (initTimeFrame client symbol maxKlines) data tfs !! tf
  = if decide (tf ∈ tfs)
    then match client symbol (default ""%string (BinanceIntervalMap !! tf)) maxKlines with
         | Some klines => Some klines
         | None => data !! tf
         end
    else data !! tf.
Proof.
  induction 1 as [|t tfs Hnotin Hnd IH]; intros data; cbn [foldl].
  - case_decide as Hd; [by apply elem_of_nil in Hd|done].
  - rewrite IH. destruct (decide (tf = t)) as [->|Hne].
    + rewrite decide_False by done. rewrite decide_True by left.
      apply initTimeFrame_lookup.
    + rewrite initTimeFrame_lookup_ne by done.
      destruct (decide (tf ∈ tfs)) as [Hin|Hout].
      * by rewrite decide_True by by right.
      * rewrite decide_False; [done|]. by intros [?|?]%elem_of_cons.
Qed.

Lemma foldl_updateTimeFrame_lookup client symbol (tfs : list string) (tf : string) :
  NoDup tfs -> forall data,
  foldl (updateTimeFrame client symbol) data tfs !! tf
  = if decide (tf ∈ tfs)
    then mergeSeries (client symbol (default ""%string (BinanceIntervalMap !! tf)) 2%Z)
                     (data !! tf)
    else data !! tf.
Proof.
  induction 1 as [|t tfs Hnotin Hnd IH]; intros data; cbn [foldl].
  - case_decide as Hd; [by apply elem_of_nil in Hd|done].
  - rewrite IH. destruct (decide (tf = t)) as [->|Hne].
    + rewrite decide_False by done. rewrite decide_True by left.
      apply updateTimeFrame_lookup.
    + rewrite updateTimeFrame_lookup_ne by done.
      destruct (decide (tf ∈ tfs)) as [Hin|Hout].
      * by rewrite decide_True by by right.
      * rewrite decide_False; [done|]. by intros [?|?]%elem_of_cons.
Qed.

(** The series [UpdateSymbol] leaves for a timeframe of its loop. *)
Lemma UpdateSymbol_series client symbol (kc : KlineCache) mtk (tf : string) :
  kc !! symbol = Some mtk -> tf ∈ timeFrames ->
  exists mtk',
    fst (UpdateSymbol client symbol kc) !! symbol = Some mtk'
    /\ Data mtk' !! tf = mergeSeries (client symbol tf 2%Z) (Data mtk !! tf).
Proof.
  intros Hs Htf. unfold UpdateSymbol. rewrite Hs. cbn [fst].
  eexists. split; [apply lookup_insert_eq|]. cbn [Data].
  rewrite (foldl_updateTimeFrame_lookup _ _ _ _ timeFrames_NoDup).
  by rewrite decide_True, interval_of_timeFrame.
Qed.

Lemma UpdateSymbol_other_timeFrame client symbol (kc : KlineCache) mtk (tf : string) :
  kc !! symbol = Some mtk -> tf ∉ timeFrames ->
  exists mtk',
    fst (UpdateSymbol client symbol kc) !! symbol = Some mtk'
    /\ Data mtk' !! tf = Data mtk !! tf.
Proof.
  intros Hs Htf. unfold UpdateSymbol. rewrite Hs. cbn [fst].
  eexists. split; [apply lookup_insert_eq|]. cbn [Data].
  rewrite (foldl_updateTimeFrame_lookup _ _ _ _ timeFrames_NoDup).
  by rewrite decide_False.
Qed.

Lemma UpdateSymbol_other_symbol client symbol (kc : KlineCache) (symbol' : string) :
  symbol <> symbol' ->
  fst (UpdateSymbol client symbol kc) !! symbol' = kc !! symbol'.
Proof.
  intros Hne. unfold UpdateSymbol. case_match; simpl; by rewrite ?lookup_insert_ne.
Qed.

(** ** [GetLatestKline] and [GetLatestTwoKlines] *)

(** C3, as the code has it.  [GetLatestKline] fails with the no-data error
    exactly when [GetKlines] with limit 1 succeeds with an empty slice,
    hands on an error of [GetKlines] unchanged, and otherwise returns the
    first candle of the slice.  [GetLatestTwoKlines] returns what
    [GetKlines] returns for limit 2, whatever that is: it hands on every
    error unchanged, but has no no-data error of its own, and an empty
    series is a success with an empty slice. *)
Theorem GetLatest_no_data (kc : KlineCache) symbol tf :
  (GetLatestKline kc symbol tf = Err ErrNoKlines
     <-> GetKlines kc symbol tf 1 = Ok [])
  /\ (forall e, GetKlines kc symbol tf 1 = Err e -> GetLatestKline kc symbol tf = Err e)
  /\ (forall kline klines,
        GetKlines kc symbol tf 1 = Ok (kline :: klines) ->
        GetLatestKline kc symbol tf = Ok kline)
  /\ GetLatestTwoKlines kc symbol tf = GetKlines kc symbol tf 2
  /\ (forall e, GetKlines kc symbol tf 2 = Err e -> GetLatestTwoKlines kc symbol tf = Err e)
  /\ GetLatestTwoKlines kc symbol tf <> Err ErrNoKlines
  /\ (GetKlines kc symbol tf 2 = Ok [] -> GetLatestTwoKlines kc symbol tf = Ok []).
Proof.
  pose proof (GetKlines_never_no_data kc symbol tf 1) as Hnever.
  unfold GetLatestKline, GetLatestTwoKlines.
  split; [|split; [|split; [|split; [|split; [|split]]]]].
  - split.
    + destruct (GetKlines kc symbol tf 1) as [[|k klines]|e|]; congruence.
    + by intros ->.
  - by intros e ->.
  - by intros kline klines ->.
  - reflexivity.
  - done.
  - apply GetKlines_never_no_data.
  - done.
Qed.

Lemma GetLatest_no_data_witness :
  GetLatestKline ∅ "BTCUSDT" "5m" = Err (ErrSymbolNotInitialized "BTCUSDT")
  /\ GetLatestTwoKlines ∅ "BTCUSDT" "5m" = Err (ErrSymbolNotInitialized "BTCUSDT")
  /\ GetLatestTwoKlines (cache_of "BTCUSDT" "5m" []) "BTCUSDT" "5m" = Ok []
  /\ GetLatestKline (cache_of "BTCUSDT" "5m" [k1; k2; k3]) "BTCUSDT" "5m" = Ok k3
  /\ GetLatestTwoKlines (cache_of "BTCUSDT" "5m" [k1; k2; k3]) "BTCUSDT" "5m"
     = Ok [k2; k3].
Proof.
  pose proof (GetLatest_no_data ∅ "BTCUSDT" "5m") as (_ & Herr1 & _ & _ & Herr2 & _).
  pose proof (GetLatest_no_data (cache_of "BTCUSDT" "5m" []) "BTCUSDT" "5m")
    as (_ & _ & _ & _ & _ & _ & Hempty).
  pose proof (GetLatest_no_data (cache_of "BTCUSDT" "5m" [k1; k2; k3]) "BTCUSDT" "5m")
    as (_ & _ & Hfirst & Htwo & _).
  split; [|split; [|split; [|split]]].
  - apply Herr1. reflexivity.
  - apply Herr2. reflexivity.
  - apply Hempty. reflexivity.
  - apply (Hfirst k3 []). reflexivity.
  - rewrite Htwo. reflexivity.
Defined.

(** After an initialization in which the provider had no candle yet for the
    five-minute interval, the series exists and is empty: [GetKlines]
    succeeds with an empty slice and so does [GetLatestTwoKlines], where the
    specification asks for a no-data error. *)
Lemma GetLatestTwoKlines_empty_series_is_success :
  let kc := fst (InitSymbol (client_of "5m" []) "BTCUSDT" 20 ∅) in
  GetKlines kc "BTCUSDT" "5m" 2 = Ok []
  /\ GetLatestTwoKlines kc "BTCUSDT" "5m" = Ok []
  /\ ~ (GetLatestTwoKlines kc "BTCUSDT" "5m" = Err ErrNoKlines
        <-> GetKlines kc "BTCUSDT" "5m" 2 = Ok []).
Proof.
  split; [reflexivity|]. split; [reflexivity|].
  intros [_ H]. specialize (H eq_refl). discriminate H.
Qed.

(** ** A new candle period *)

(** When the latest fetched candle is newer than the stored latest one, the
    iteration appends the whole response and keeps the latest [maxKeep]
    candles. *)
Lemma mergeSeries_new_period stored response lastExisting lastNew :
  last stored = Some lastExisting -> last response = Some lastNew ->
  (OpenTime lastExisting < OpenTime lastNew)%Z ->
  mergeSeries (Some response) (Some stored) = Some (keepLatest (stored ++ response)).
Proof.
  intros He Hn Hlt. unfold mergeSeries. simpl. rewrite Hn, He.
  by destruct (Z.ltb_spec (OpenTime lastExisting) (OpenTime lastNew)); [|lia].
Qed.

(** When it is not newer, the iteration overwrites the stored latest candle. *)
Lemma mergeSeries_same_period stored response lastExisting lastNew :
  last stored = Some lastExisting -> last response = Some lastNew ->
  (OpenTime lastNew <= OpenTime lastExisting)%Z ->
  mergeSeries (Some response) (Some stored)
  = Some (keepLatest (<[(length stored - 1)%nat := lastNew]> stored)).
Proof.
  intros He Hn Hle. unfold mergeSeries. simpl. rewrite Hn, He.
  by destruct (Z.ltb_spec (OpenTime lastExisting) (OpenTime lastNew)); [lia|].
Qed.

(** [UpdateSymbol] in a new candle period: the stored series becomes the
    latest [maxKeep] candles of the stored series followed by the whole
    response. *)
Lemma UpdateSymbol_new_period client symbol (kc : KlineCache) mtk (tf : string)
    stored response lastExisting lastNew :
  kc !! symbol = Some mtk -> tf ∈ timeFrames ->
  Data mtk !! tf = Some stored -> last stored = Some lastExisting ->
  client symbol tf 2%Z = Some response -> last response = Some lastNew ->
  (OpenTime lastExisting < OpenTime lastNew)%Z ->
  exists mtk',
    fst (UpdateSymbol client symbol kc) !! symbol = Some mtk'
    /\ Data mtk' !! tf = Some (keepLatest (stored ++ response)).
Proof.
  intros Hs Htf Hstored Hle Hresp Hln Hlt.
  destruct (UpdateSymbol_series client symbol kc mtk tf Hs Htf) as (mtk' & Hs' & Hd).
  exists mtk'. split; [done|].
  rewrite Hd, Hstored, Hresp.
  by apply mergeSeries_new_period with lastExisting lastNew.
Qed.

(** With a response of one candle and room below [maxKeep], this is the
    stored series with the fetched candle appended. *)
Lemma UpdateSymbol_new_period_single client symbol (kc : KlineCache) mtk (tf : string)
    stored lastExisting lastNew :
  kc !! symbol = Some mtk -> tf ∈ timeFrames ->
  Data mtk !! tf = Some stored -> last stored = Some lastExisting ->
  client symbol tf 2%Z = Some [lastNew] ->
  (OpenTime lastExisting < OpenTime lastNew)%Z ->
  length stored < maxKeep ->
  exists mtk',
    fst (UpdateSymbol client symbol kc) !! symbol = Some mtk'
    /\ Data mtk' !! tf = Some (stored ++ [lastNew]).
Proof.
  intros Hs Htf Hstored Hle Hresp Hlt Hlen.
  destruct (UpdateSymbol_new_period client symbol kc mtk tf stored [lastNew]
              lastExisting lastNew) as (mtk' & Hs' & Hd); try done.
  exists mtk'. split; [done|].
  rewrite Hd. f_equal. unfold keepLatest.
  rewrite length_app. simpl.
  by destruct (Nat.ltb_spec maxKeep (length stored + 1)); [lia|].
Qed.

(** C1.  The stored series ends in the forming candle of the period that
    opened at 300000; the provider then returns the two latest candles, the
    closed candle of that period and the candle of the period that opened at
    600000.  [UpdateSymbol] appends both: the series grows by two, holds the
    open time 300000 twice, and its last two entries are the two fetched
    candles. *)
Theorem UpdateSymbol_new_period_appends_response :
  let kc := cache_of "BTCUSDT" "5m" [k1_forming] in
  let kc' := fst (UpdateSymbol (client_of "5m" [k1; k2]) "BTCUSDT" kc) in
  kc' = cache_of "BTCUSDT" "5m" [k1_forming; k1; k2]
  /\ GetKlines kc' "BTCUSDT" "5m" 20
     = Ok [k1_forming; k1; k2]
  /\ OpenTime <$> [k1_forming; k1; k2] = [300000; 300000; 600000]%Z.
Proof. repeat split; reflexivity. Qed.

(** ** Two updates with the same data *)

Lemma keepLatest_id klines : length klines <= maxKeep -> keepLatest klines = klines.
Proof.
  intros H. unfold keepLatest.
  by destruct (Nat.ltb_spec maxKeep (length klines)); [lia|].
Qed.

Lemma keepLatest_drop klines :
  keepLatest klines = drop (length klines - maxKeep) klines.
Proof.
  unfold keepLatest. destruct (Nat.ltb_spec maxKeep (length klines)); [done|].
  by replace (length klines - maxKeep) with 0 by lia.
Qed.

Lemma keepLatest_length klines : length (keepLatest klines) <= maxKeep.
Proof. rewrite keepLatest_drop, length_drop. lia. Qed.

Lemma last_drop_lt {A} (l : list A) n : n < length l -> last (drop n l) = last l.
Proof.
  intros Hn. rewrite <- (take_drop n l) at 2. rewrite last_app.
  destruct (last (drop n l)) eqn:Hl; [done|].
  apply last_None in Hl. apply (f_equal length) in Hl.
  rewrite length_drop in Hl. simpl in Hl. lia.
Qed.

Lemma keepLatest_last klines : last (keepLatest klines) = last klines.
Proof.
  unfold keepLatest. destruct (Nat.ltb_spec maxKeep (length klines)); [|done].
  apply last_drop_lt. unfold maxKeep in *. lia.
Qed.

Lemma last_insert_last {A} (l : list A) x y :
  last l = Some y -> last (<[length l - 1 := x]> l) = Some x.
Proof.
  intros [l' ->]%last_Some. rewrite length_app. simpl.
  replace (length l' + 1 - 1) with (length l' + 0) by lia.
  rewrite insert_app_r. simpl. apply last_snoc.
Qed.

Lemma insert_last_same {A} (l : list A) x :
  last l = Some x -> <[length l - 1 := x]> l = l.
Proof.
  intros Hl. apply list_insert_id. rewrite last_lookup in Hl.
  by replace (length l - 1) with (pred (length l)) by lia.
Qed.

(** After an iteration that saw a non-empty response, the series ends in
    the latest fetched candle. *)
Lemma mergeSeries_last response stored lastNew :
  last response = Some lastNew ->
  exists klines,
    mergeSeries (Some response) stored = Some klines
    /\ last klines = Some lastNew
    /\ (length klines <= maxKeep \/ klines = response).
Proof.
  intros Hn. unfold mergeSeries. rewrite Hn.
  destruct (last (default [] stored)) as [lastExisting|] eqn:He.
  - eexists. split; [done|]. split; [|left; apply keepLatest_length].
    rewrite keepLatest_last.
    destruct (OpenTime lastExisting <? OpenTime lastNew)%Z.
    + by rewrite last_app, Hn.
    + by apply last_insert_last with lastExisting.
  - eauto.
Qed.

Lemma mergeSeries_idempotent fetched stored :
  (forall response, fetched = Some response -> length response <= maxKeep) ->
  mergeSeries fetched (mergeSeries fetched stored) = mergeSeries fetched stored.
Proof.
  intros Hbound. destruct fetched as [response|]; [|done].
  destruct (last response) as [lastNew|] eqn:Hn; [|by unfold mergeSeries; rewrite Hn].
  destruct (mergeSeries_last response stored lastNew Hn) as (klines & -> & Hl & Hlen).
  rewrite (mergeSeries_same_period klines response lastNew lastNew) by (done || lia).
  rewrite insert_last_same by done. f_equal. apply keepLatest_id.
  destruct Hlen as [?| ->]; [done|]. by apply Hbound.
Qed.

(** C4.  With a provider that answers a request with no more candles than
    it asks for, a second [UpdateSymbol] that is given the same data as the
    first leaves every stored series as the first left it: the two calls
    return the same cache and the same error. *)
Theorem UpdateSymbol_idempotent client symbol (kc : KlineCache) :
  honours_limit client ->
  UpdateSymbol client symbol (fst (UpdateSymbol client symbol kc))
  = UpdateSymbol client symbol kc.
Proof.
  intros Hlimit. unfold UpdateSymbol at 2 3.
  destruct (kc !! symbol) as [mtk|] eqn:Hs; cbn [fst].
  - unfold UpdateSymbol. rewrite lookup_insert_eq. cbn [Symbol Data].
    rewrite insert_insert_eq. do 3 f_equal.
    apply map_eq. intros tf.
    rewrite !(foldl_updateTimeFrame_lookup _ _ _ _ timeFrames_NoDup).
    case_decide; [|done].
    apply mergeSeries_idempotent. intros response Hr.
    apply Hlimit in Hr. unfold maxKeep. lia.
  - unfold UpdateSymbol. by rewrite Hs.
Qed.

Lemma latest_of_honours_limit interval series : honours_limit (latest_of interval series).
Proof.
  intros symbol i limit klines. unfold latest_of.
  destruct (String.eqb i interval); simpl; [|done].
  destruct (Z.leb_spec 0 limit); [|done].
  intros [= <-]. rewrite length_drop. lia.
Qed.

Lemma UpdateSymbol_idempotent_witness :
  let client := latest_of "5m" [k1; k2; k3] in
  let kc := cache_of "BTCUSDT" "5m" [k1; k2] in
  UpdateSymbol client "BTCUSDT" (fst (UpdateSymbol client "BTCUSDT" kc))
  = UpdateSymbol client "BTCUSDT" kc.
Proof.
  apply (UpdateSymbol_idempotent (latest_of "5m" [k1; k2; k3]) "BTCUSDT"
           (cache_of "BTCUSDT" "5m" [k1; k2])).
  apply latest_of_honours_limit.
Defined.

(** ** The order and the length of a stored series *)

Lemma ascending_drop n klines : ascending klines -> ascending (drop n klines).
Proof.
  unfold ascending. intros H. rewrite <- (take_drop n klines) in H.
  by apply StronglySorted_app_1_r in H.
Qed.

Lemma ascending_keepLatest klines : ascending klines -> ascending (keepLatest klines).
Proof. rewrite keepLatest_drop. apply ascending_drop. Qed.

Lemma ascending_le_last klines lastK k :
  ascending klines -> last klines = Some lastK -> k ∈ klines ->
  (OpenTime k <= OpenTime lastK)%Z.
Proof.
  unfold ascending. intros Hs [l' ->]%last_Some Hin.
  apply elem_of_app in Hin as [Hin|Hin].
  - pose proof (StronglySorted_app_1_elem_of _ l' [lastK] k lastK Hs Hin) as Hlt.
    apply Z.lt_le_incl, Hlt. by apply list_elem_of_singleton.
  - apply list_elem_of_singleton in Hin as ->. lia.
Qed.

Lemma ascending_replace_last klines lastK k :
  ascending klines -> last klines = Some lastK -> OpenTime k = OpenTime lastK ->
  ascending (<[length klines - 1 := k]> klines).
Proof.
  unfold ascending. intros Hs [l' ->]%last_Some Heq.
  rewrite length_app. simpl.
  replace (length l' + 1 - 1) with (length l' + 0) by lia.
  rewrite insert_app_r. simpl.
  apply StronglySorted_app in Hs as (Hlt & Hl' & _).
  apply StronglySorted_app_2; [|done|repeat constructor].
  intros x1 x2 H1 ->%list_elem_of_singleton. rewrite Heq.
  apply Hlt; [done|]. by apply list_elem_of_singleton.
Qed.

Lemma ascending_NoDup klines : ascending klines -> NoDup (OpenTime <$> klines).
Proof.
  unfold ascending. induction 1 as [|k klines Hs IH Hall]; simpl.
  - apply NoDup_nil_2.
  - apply NoDup_cons. split; [|done].
    intros (k' & Heq & Hin)%list_elem_of_fmap.
    rewrite Forall_forall in Hall. specialize (Hall k' Hin). lia.
Qed.

(** One iteration keeps a series ordered and within [n >= maxKeep] candles
    when the response is ordered, within [n] candles, and continues the
    series. *)
Lemma mergeSeries_ordered n fetched stored klines :
  maxKeep <= n ->
  (forall s, stored = Some s -> ascending s /\ length s <= n) ->
  (forall r, fetched = Some r -> ascending r /\ length r <= n) ->
  (forall s r, stored = Some s -> fetched = Some r -> continues s r) ->
  mergeSeries fetched stored = Some klines ->
  ascending klines /\ length klines <= n.
Proof.
  intros Hn Hstored Hfetched Hcont. unfold mergeSeries.
  destruct fetched as [response|]; [|by apply Hstored].
  destruct (Hfetched response eq_refl) as [Hr_asc Hr_len].
  destruct (last response) as [lastNew|] eqn:Hlast_new; [|by apply Hstored].
  destruct stored as [s|]; simpl; [|by intros [= <-]].
  destruct (Hstored s eq_refl) as [Hs_asc Hs_len].
  destruct (last s) as [lastExisting|] eqn:Hlast_s; [|by intros [= <-]].
  intros [= <-]. split; [|pose proof (keepLatest_length
    (if (OpenTime lastExisting <? OpenTime lastNew)%Z then s ++ response
     else <[length s - 1 := lastNew]> s)); lia].
  apply ascending_keepLatest.
  specialize (Hcont s response eq_refl eq_refl). unfold continues in Hcont.
  rewrite Hlast_s, Hlast_new in Hcont.
  destruct (Z.ltb_spec (OpenTime lastExisting) (OpenTime lastNew)) as [Hlt|Hge].
  - destruct Hcont as [Heq|Hnewer]; [lia|].
    apply StronglySorted_app_2; [|done|done].
    intros x1 x2 H1 H2. rewrite Forall_forall in Hnewer.
    pose proof (ascending_le_last s lastExisting x1 Hs_asc Hlast_s H1).
    specialize (Hnewer x2 H2). lia.
  - destruct Hcont as [Heq|Hnewer].
    + by apply ascending_replace_last with lastExisting.
    + rewrite Forall_forall in Hnewer.
      specialize (Hnewer lastNew (last_Some_elem_of _ _ Hlast_new)). lia.
Qed.

(** The invariant of the cache: every stored series is ordered and within
    [n] candles. *)
Lemma runCall_ordered n (kc : KlineCache) (c : call) :
  maxKeep <= n ->
  ordered_responses (callClient c) -> bounded_responses n (callClient c) ->
  continuing kc c ->
  (forall symbol mtk tf klines,
     kc !! symbol = Some mtk -> Data mtk !! tf = Some klines ->
     ascending klines /\ length klines <= n) ->
  forall symbol mtk tf klines,
    runCall kc c !! symbol = Some mtk -> Data mtk !! tf = Some klines ->
    ascending klines /\ length klines <= n.
Proof.
  intros Hn Hord Hbound Hcont Hinv symbol mtk tf klines.
  destruct c as [client sym maxKlines|client sym];
    cbn [runCall callClient continuing] in *.
  - unfold InitSymbol. destruct (kc !! sym) as [old|] eqn:Hsym; cbn [fst].
    + apply Hinv.
    + destruct (decide (sym = symbol)) as [->|Hne].
      * rewrite lookup_insert_eq. intros Hm. apply (inj Some) in Hm as <-. cbn [Data].
        rewrite (foldl_initTimeFrame_lookup _ _ _ _ _ timeFrames_NoDup).
        rewrite lookup_empty. case_decide; [|done].
        destruct (client _ _ _) eqn:Hc; [|done]. intros [= <-]. eauto.
      * rewrite lookup_insert_ne by done. apply Hinv.
  - destruct (decide (sym = symbol)) as [->|Hne].
    + unfold UpdateSymbol. destruct (kc !! symbol) as [old|] eqn:Hsym; cbn [fst].
      * rewrite lookup_insert_eq. intros Hm. apply (inj Some) in Hm as <-. cbn [Data].
        rewrite (foldl_updateTimeFrame_lookup _ _ _ _ timeFrames_NoDup).
        case_decide as Htf; [|by apply (Hinv symbol old)].
        rewrite interval_of_timeFrame by done.
        apply mergeSeries_ordered; [done| | |].
        -- intros s Hs. by apply (Hinv symbol old tf).
        -- intros r Hr. eauto.
        -- intros s r Hs Hr. by apply (Hcont old tf).
      * by apply Hinv.
    + rewrite UpdateSymbol_other_symbol by done. apply Hinv.
Qed.

Lemma runCalls_ordered n (calls : list call) : forall kc : KlineCache,
  maxKeep <= n ->
  Forall (fun c => ordered_responses (callClient c)
                   /\ bounded_responses n (callClient c)) calls ->
  continuing_run kc calls ->
  (forall symbol mtk tf klines,
     kc !! symbol = Some mtk -> Data mtk !! tf = Some klines ->
     ascending klines /\ length klines <= n) ->
  forall symbol mtk tf klines,
    runCalls kc calls !! symbol = Some mtk -> Data mtk !! tf = Some klines ->
    ascending klines /\ length klines <= n.
Proof.
  induction calls as [|c calls IH]; intros kc Hn Hall Hcont Hinv; [done|].
  apply Forall_cons in Hall as [[Hord Hbound] Hall].
  destruct Hcont as [Hc Hcont]. cbn [runCalls foldl].
  apply IH; [done|done|done|]. by apply runCall_ordered.
Qed.

(** C2, as the code has it.  Take any sequence of [InitSymbol] and
    [UpdateSymbol] calls on an empty cache in which every provider response
    is chronologically ordered with unique open times and holds at most [n]
    candles, for an [n] of at least 20, and in which every response that an
    update merges continues the stored series (its latest candle is the
    stored latest one, or all its candles are newer).  Then every stored
    series has strictly ascending, pairwise distinct open times and at most
    [n] candles; with [n = 20] this is the bound of the specification. *)
Theorem stored_series_ordered n (calls : list call) symbol mtk tf klines :
  maxKeep <= n ->
  Forall (fun c => ordered_responses (callClient c)
                   /\ bounded_responses n (callClient c)) calls ->
  continuing_run ∅ calls ->
  runCalls ∅ calls !! symbol = Some mtk -> Data mtk !! tf = Some klines ->
  ascending klines /\ NoDup (OpenTime <$> klines) /\ length klines <= n.
Proof.
  intros Hn Hall Hcont Hs Ht.
  destruct (runCalls_ordered n calls ∅ Hn Hall Hcont) with symbol mtk tf klines
    as [Hasc Hlen]; [|done|done|].
  - intros ? ? ? ? Hempty. by rewrite lookup_empty in Hempty.
  - split; [done|]. split; [by apply ascending_NoDup|done].
Qed.

Lemma client_of_ordered interval klines :
  ascending klines -> ordered_responses (client_of interval klines).
Proof.
  intros Hasc symbol i limit r. unfold client_of.
  destruct (String.eqb i interval); [|done]. by intros [= <-].
Qed.

Lemma client_of_bounded n interval klines :
  length klines <= n -> bounded_responses n (client_of interval klines).
Proof.
  intros Hlen symbol i limit r. unfold client_of.
  destruct (String.eqb i interval); [|done]. by intros [= <-].
Qed.

Lemma client_of_continuing (kc : KlineCache) symbol interval response mtk stored :
  kc !! symbol = Some mtk -> Data mtk !! interval = Some stored ->
  continues stored response ->
  continuing kc (CallUpdateSymbol (client_of interval response) symbol).
Proof.
  intros Hs Ht Hc mtk' tf stored' response'. rewrite Hs. intros [= <-].
  unfold client_of. destruct (String.eqb_spec tf interval) as [->|]; [|done].
  rewrite Ht. by intros [= <-] [= <-].
Qed.

Lemma seq_StronglySorted n : forall start, StronglySorted lt (seq start n).
Proof.
  induction n as [|n IH]; intros start; simpl; constructor; [apply IH|].
  apply Forall_forall. intros i Hi%elem_of_seq. lia.
Qed.

Lemma series_ascending n : ascending (series n).
Proof.
  unfold ascending, series.
  apply (StronglySorted_fmap _ lt); [|apply seq_StronglySorted].
  intros i j Hij. simpl. lia.
Qed.

(** An initialization, an update within the same candle period and an
    update that opens a new period. *)
Lemma stored_series_ordered_witness :
  ascending [k1; k2] /\ NoDup (OpenTime <$> [k1; k2]) /\ length [k1; k2] <= 20.
Proof.
  apply (stored_series_ordered 20
           [CallInitSymbol (client_of "5m" [k1_forming]) "BTCUSDT" 20;
            CallUpdateSymbol (client_of "5m" [k1]) "BTCUSDT";
            CallUpdateSymbol (client_of "5m" [k2]) "BTCUSDT"]
           "BTCUSDT" {| Symbol := "BTCUSDT"; Data := {[ "5m" := [k1; k2] ]} |} "5m").
  - unfold maxKeep. lia.
  - repeat (apply Forall_cons; split;
            [split; [apply client_of_ordered; repeat constructor
                    |apply client_of_bounded; simpl; lia]|]).
    apply Forall_nil_2.
  - split; [exact I|]. split; [|split; [|exact I]].
    + apply (client_of_continuing _ _ _ _
               {| Symbol := "BTCUSDT"; Data := {[ "5m" := [k1_forming] ]} |}
               [k1_forming]); [reflexivity|reflexivity|].
      left. reflexivity.
    + apply (client_of_continuing _ _ _ _
               {| Symbol := "BTCUSDT"; Data := {[ "5m" := [k1] ]} |}
               [k1]); [reflexivity|reflexivity|].
      right. repeat constructor.
  - reflexivity.
  - reflexivity.
Defined.

(** [InitSymbol] stores what the provider returns for [maxKlines]: asked for
    21 candles, it leaves an ordered series of 21 candles, one more than the
    specification allows. *)
Lemma InitSymbol_series_longer_than_maxKeep :
  let client := client_of "5m" (series 21) in
  let kc := runCalls ∅ [CallInitSymbol client "BTCUSDT" 21] in
  ordered_responses client
  /\ kc !! "BTCUSDT" = Some {| Symbol := "BTCUSDT"; Data := {[ "5m" := series 21 ]} |}
  /\ length (series 21) = 21
  /\ ~ (forall mtk klines,
          kc !! "BTCUSDT" = Some mtk -> Data mtk !! "5m" = Some klines ->
          ascending klines /\ NoDup (OpenTime <$> klines) /\ length klines <= 20).
Proof.
  split; [apply client_of_ordered, series_ascending|].
  split; [reflexivity|]. split; [reflexivity|].
  intros H.
  destruct (H {| Symbol := "BTCUSDT"; Data := {[ "5m" := series 21 ]} |} (series 21))
    as (_ & _ & Hlen); [reflexivity|reflexivity|].
  vm_compute in Hlen. lia.
Qed.

(** A response older than the stored latest candle is not a new period, so
    it overwrites the stored latest candle, and the series is no longer in
    chronological order. *)
Lemma UpdateSymbol_older_response_overwrites :
  fst (UpdateSymbol (client_of "5m" [k1]) "BTCUSDT" (cache_of "BTCUSDT" "5m" [k2; k3]))
  = cache_of "BTCUSDT" "5m" [k2; k1].
Proof. reflexivity. Qed.

(** An update that finds an empty series adopts the response without
    truncating it; a provider that returned more than [maxKeep] candles for
    the two it was asked for would see the next update truncate them. *)
Lemma UpdateSymbol_adopts_untruncated :
  let client := client_of "5m" (series 21) in
  let kc1 := fst (UpdateSymbol client "BTCUSDT" (cache_of "BTCUSDT" "5m" [])) in
  let kc2 := fst (UpdateSymbol client "BTCUSDT" kc1) in
  kc1 = cache_of "BTCUSDT" "5m" (series 21)
  /\ kc2 = cache_of "BTCUSDT" "5m" (drop 1 (series 21)).
Proof. split; reflexivity. Qed.

(** ** Binary64 arithmetic

    The facts about IEEE 754 multiplication and comparison that the
    detector relies on, from the specification of the primitive floats. *)

Section binary64.
Local Open Scope Z_scope.

Lemma digits2_pos_size p : digits2_pos p = Pos.size p.
Proof. induction p; simpl; congruence. Qed.

Lemma digits2_bounds p :
  2 ^ (Zpos (digits2_pos p) - 1) <= Zpos p < 2 ^ Zpos (digits2_pos p).
Proof.
  rewrite digits2_pos_size.
  pose proof (Pos.size_gt p) as Hgt. pose proof (Pos.size_le p) as Hle.
  split.
  - apply Pos2Z.pos_le_pos in Hle. rewrite Pos2Z.inj_pow in Hle.
    replace (Zpos (Pos.size p)) with (Z.succ (Zpos (Pos.size p) - 1)) in Hle by lia.
    rewrite Z.pow_succ_r in Hle by lia. lia.
  - apply Pos2Z.pos_lt_pos in Hgt. now rewrite Pos2Z.inj_pow in Hgt.
Qed.

Lemma shr_1_m mrs : 0 <= shr_m mrs -> shr_m (shr_1 mrs) = Z.div2 (shr_m mrs).
Proof.
  destruct mrs as [m r s]. simpl. intros Hm.
  destruct m as [|[p|p|]|p]; try reflexivity. lia.
Qed.

Lemma iter_pos_shr_1_m p : forall mrs, 0 <= shr_m mrs ->
  shr_m (SpecFloat.iter_pos shr_1 p mrs) = shr_m mrs / 2 ^ Zpos p.
Proof.
  induction p as [p IH|p IH|]; intros mrs Hm; cbn [SpecFloat.iter_pos].
  - assert (H1 : 0 <= shr_m (shr_1 mrs)) by (rewrite shr_1_m by lia; rewrite Z.div2_div; apply Z.div_pos; lia).
    assert (H2 : 0 <= shr_m (SpecFloat.iter_pos shr_1 p (shr_1 mrs))) by (rewrite IH by lia; apply Z.div_pos; lia).
    rewrite IH, IH, shr_1_m by lia. rewrite Z.div2_div.
    rewrite !Z.div_div by lia. f_equal.
    replace (Z.pos p~1) with (1 + Z.pos p + Z.pos p) by lia.
    rewrite (Z.pow_add_r 2 (1 + Z.pos p)), (Z.pow_add_r 2 1) by lia.
    rewrite Z.pow_1_r. ring.
  - assert (H2 : 0 <= shr_m (SpecFloat.iter_pos shr_1 p mrs)) by (rewrite IH by lia; apply Z.div_pos; lia).
    rewrite IH, IH by lia.
    rewrite !Z.div_div by lia. f_equal.
    replace (Z.pos p~0) with (Z.pos p + Z.pos p) by lia.
    rewrite (Z.pow_add_r 2 (Z.pos p)) by lia. ring.
  - rewrite shr_1_m by lia. now rewrite Z.div2_div.
Qed.

Lemma shr_m_nonneg m e n : 0 <= m ->
  0 <= shr_m (fst (shr (Build_shr_record m false false) e n)).
Proof.
  intros Hm. unfold shr. destruct n; simpl; try lia.
  rewrite iter_pos_shr_1_m by (simpl; lia). simpl. apply Z.div_pos; lia.
Qed.

Lemma round_nearest_even_ge m l : m <= round_nearest_even m l.
Proof.
  unfold round_nearest_even. destruct l as [|[| |]]; try lia.
  destruct (Z.even m); lia.
Qed.

(** Second shift of binary_round_aux: from a positive mantissa with exponent at least emin. *)
Lemma renormalize_lower_bound (m : positive) e :
  emin <= e ->
  let '(mrs, e') := shr_fexp prec emax (Zpos m) e loc_Exact in
  exists m', shr_m mrs = Zpos m' /\ (e < e' \/ (e = e' /\ m' = m)).
Proof.
  intros He. unfold shr_fexp, shr. cbn [Zdigits2 shr_record_of_loc].
  pose proof (digits2_bounds m) as Hd.
  set (d := Zpos (digits2_pos m)) in *.
  destruct (fexp prec emax (d + e) - e) as [|n|n] eqn:Hn.
  - exists m. simpl. auto.
  - rewrite iter_pos_shr_1_m by (simpl; lia). cbn [shr_m].
    unfold fexp, SpecFloat.emin, prec, emax in *.
    assert (Hnd : Zpos n = d - 53) by lia.
    assert (Hpow : 2 ^ (d - 1) = 2 ^ 52 * 2 ^ Zpos n).
    { rewrite <- Z.pow_add_r by lia. f_equal. lia. }
    assert (Hq : 2 ^ 52 <= Zpos m / 2 ^ Zpos n).
    { apply Z.div_le_lower_bound; [apply Z.pow_pos_nonneg; lia|]. rewrite Z.mul_comm. lia. }
    destruct (Zpos m / 2 ^ Zpos n) as [|q|q] eqn:Hdiv; [lia| |lia].
    exists q. split; [reflexivity|]. left. lia.
  - exists m. simpl. auto.
Qed.

Lemma first_shift_lower_bound (m : positive) e :
  bounded prec emax m e = true ->
  let '(mrs, e1) := shr_fexp prec emax (Zpos (m * c15)) (e + -52) loc_Exact in
  0 < shr_m mrs /\ emin <= e1 /\ (e < e1 \/ (e = e1 /\ Zpos m <= shr_m mrs)).
Proof.
  unfold bounded, canonical_mantissa. intros [Hcanon Hmax]%andb_prop.
  apply Z.eqb_eq in Hcanon. apply Z.leb_le in Hmax.
  unfold shr_fexp, shr. cbn [Zdigits2 shr_record_of_loc].
  pose proof (digits2_bounds m) as Hd.
  pose proof (digits2_bounds (m * c15)) as HD.
  set (d := Zpos (digits2_pos m)) in *.
  set (D := Zpos (digits2_pos (m * c15))) in *.
  assert (Hd1 : 1 <= d) by (subst d; lia).
  assert (HD1 : 1 <= D) by (subst D; lia).
  rewrite Pos2Z.inj_mul in HD. unfold c15 in HD.
  assert (HDle : D <= d + 53).
  { assert (H : 2 ^ (D - 1) < 2 ^ (d + 53)).
    { rewrite (Z.pow_add_r 2 d 53) by lia.
      change (2 ^ 53) with 9007199254740992.
      assert (0 < 2 ^ d) by (apply Z.pow_pos_nonneg; lia). lia. }
    apply Z.pow_lt_mono_r_iff in H; lia. }
  assert (HDge : d + 52 <= D).
  { assert (H : 2 ^ (d + 51) < 2 ^ D).
    { replace (d + 51) with ((d - 1) + 52) by lia. rewrite (Z.pow_add_r 2 (d - 1) 52) by lia.
      change (2 ^ 52) with 4503599627370496. lia. }
    apply Z.pow_lt_mono_r_iff in H; lia. }
  unfold fexp, SpecFloat.emin, prec, emax in *.
  destruct (Z.max (D + (e + -52) - 53) (3 - 1024 - 53) - (e + -52)) as [|n|n] eqn:Hn;
    [lia| |lia].
  rewrite iter_pos_shr_1_m by (simpl; lia). cbn [shr_m].
  rewrite Pos2Z.inj_mul. unfold c15.
  assert (Hcases : (Zpos n = 52) \/ (Zpos n = 53 /\ d = 53)) by lia.
  destruct Hcases as [H52|[H53 Hd53]].
  - rewrite H52. change (2 ^ 52) with 4503599627370496.
    assert (Hq : Zpos m <= Zpos m * 6755399441055744 / 4503599627370496).
    { apply Z.div_le_lower_bound; lia. }
    split; [lia|]. split; [lia|]. right. lia.
  - rewrite H53. change (2 ^ 53) with 9007199254740992.
    subst d. rewrite Hd53 in Hd. change (2 ^ (53 - 1)) with 4503599627370496 in Hd.
    assert (Hq : 1 <= Zpos m * 6755399441055744 / 9007199254740992).
    { apply Z.div_le_lower_bound; lia. }
    split; [lia|]. split; [lia|]. left. lia.
Qed.

Lemma SFmul_1_5_lower_bound (m : positive) e :
  bounded prec emax m e = true ->
  let r := SFmul prec emax (S754_finite false m e) (S754_finite false c15 (-52)) in
  r = S754_infinity false
  \/ exists m' e', r = S754_finite false m' e' /\ (e < e' \/ (e = e' /\ (m <= m')%positive)).
Proof.
  intros Hb. cbn [SFmul xorb]. unfold binary_round_aux.
  pose proof (first_shift_lower_bound m e Hb) as H1.
  destruct (shr_fexp prec emax (Zpos (m * c15)) (e + -52) loc_Exact) as [mrs1 e1].
  destruct H1 as (Hpos & Hemin & Hlex).
  pose proof (round_nearest_even_ge (shr_m mrs1) (loc_of_shr_record mrs1)) as Hround.
  destruct (round_nearest_even (shr_m mrs1) (loc_of_shr_record mrs1)) as [|q|q]; [lia| |lia].
  pose proof (renormalize_lower_bound q e1 Hemin) as H2.
  destruct (shr_fexp prec emax (Zpos q) e1 loc_Exact) as [mrs2 e2].
  destruct H2 as (m2 & -> & Hlex2).
  destruct (e2 <=? emax - prec); [|now left].
  right. exists m2, e2. split; [reflexivity|]. lia.
Qed.

Lemma Prim2SF_1_5 : Prim2SF 1.5%float = S754_finite false c15 (-52).
Proof. reflexivity. Qed.

Lemma Prim2SF_zero : Prim2SF 0%float = S754_zero false.
Proof. reflexivity. Qed.

(** No float lies strictly between [b * 1.5] and [b] when [b] is positive. *)
Lemma mul_1_5_not_between (b l : float) :
  (0 <? b)%float = true -> (b * 1.5 <? l)%float = true -> (l <? b)%float = true -> False.
Proof.
  rewrite !FloatAxioms.ltb_spec, FloatAxioms.mul_spec, Prim2SF_1_5, Prim2SF_zero.
  pose proof (Prim2SF_valid b) as Hvalid.
  unfold SF64mul, SFltb.
  destruct (Prim2SF b) as [sb|sb| |sb m e]; try discriminate.
  - destruct sb; [discriminate|]. intros _. cbn [SFmul xorb].
    destruct (Prim2SF l) as [sl|sl| |sl ml el]; try discriminate.
    destruct sl; discriminate.
  - destruct sb; [discriminate|]. intros _.
    destruct (SFmul_1_5_lower_bound m e Hvalid) as [Hr|(m' & e' & Hr & Hlex)];
      cbv zeta in Hr; rewrite Hr; clear Hr.
    + destruct (Prim2SF l) as [sl|sl| |sl ml el]; try discriminate.
      destruct sl; discriminate.
    + destruct (Prim2SF l) as [sl|[|]| |[|] ml el]; try discriminate.
      cbn [SFcompare]. rewrite !Pos.compare_cont_spec. cbn [Pos.switch_Eq].
      destruct (Z.compare_spec e' el), (Z.compare_spec el e),
               (Pos.compare_spec m' ml), (Pos.compare_spec ml m);
        try discriminate; intros _ _; lia.
Qed.

(** [abs x] is a NaN, a zero or positive. *)
Lemma abs_cases (x : float) :
  Prim2SF (PrimFloat.abs x) = S754_nan \/ (PrimFloat.abs x =? 0)%float = true \/ (0 <? PrimFloat.abs x)%float = true.
Proof.
  rewrite FloatAxioms.eqb_spec, FloatAxioms.ltb_spec, FloatAxioms.abs_spec, Prim2SF_zero.
  destruct (Prim2SF x); cbn; auto.
Qed.

Lemma ltb_nan_l (x y : float) : Prim2SF x = S754_nan -> (x <? y)%float = false.
Proof. intros H. rewrite FloatAxioms.ltb_spec, H. reflexivity. Qed.

End binary64.

(** ** What the detector reads *)

Lemma GetLatestKline_stored (kc : KlineCache) symbol tf mtk klines :
  kc !! symbol = Some mtk -> Data mtk !! tf = Some klines ->
  GetLatestKline kc symbol tf
  = match last klines with Some kline => Ok kline | None => Err ErrNoKlines end.
Proof.
  intros Hs Ht. unfold GetLatestKline.
  rewrite (GetKlines_stored kc symbol tf 1 mtk klines) by (done || lia).
  destruct (last klines) as [kline|] eqn:Hlast.
  - apply last_Some in Hlast as [older ->].
    rewrite length_app.
    replace (length older + length [kline] - Z.to_nat 1) with (length older + 0)
      by (simpl; lia).
    by rewrite drop_app_add.
  - apply last_None in Hlast as ->. reflexivity.
Qed.

Lemma GetLatestTwoKlines_stored (kc : KlineCache) symbol tf mtk older prevKline currentKline :
  kc !! symbol = Some mtk ->
  Data mtk !! tf = Some (older ++ [prevKline; currentKline]) ->
  GetLatestTwoKlines kc symbol tf = Ok [prevKline; currentKline].
Proof.
  intros Hs Ht. unfold GetLatestTwoKlines.
  rewrite (GetKlines_stored kc symbol tf 2 mtk _ Hs Ht) by lia.
  rewrite length_app.
  replace (length older + length [prevKline; currentKline] - Z.to_nat 2)
    with (length older + 0) by (simpl; lia).
  by rewrite drop_app_add.
Qed.

(** ** Pin bars *)

Lemma pinBar_exclusive (body upperShadow lowerShadow totalRange : float) :
  (0 <? body)%float = true ->
  bullishPinBar body upperShadow lowerShadow totalRange
  && bearishPinBar body upperShadow lowerShadow totalRange = false.
Proof.
  intros Hpos. unfold bullishPinBar, bearishPinBar.
  destruct (body * 1.5 <? lowerShadow)%float eqn:Hlong; [|done].
  destruct (lowerShadow <? body)%float eqn:Hshort; [|by rewrite !andb_false_r].
  destruct (mul_1_5_not_between body lowerShadow Hpos Hlong Hshort).
Qed.

Lemma pinBarSignals_length symbol tf kline :
  length (pinBarSignals symbol tf kline) <= 1.
Proof.
  unfold pinBarSignals.
  destruct ((klineTotalRange kline =? 0)%float || (klineBody kline =? 0)%float)
    eqn:Hguard; [simpl; lia|].
  apply orb_false_elim in Hguard as [_ Hbody].
  assert (Hex : bullishPinBar (klineBody kline) (klineUpperShadow kline)
                  (klineLowerShadow kline) (klineTotalRange kline)
                && bearishPinBar (klineBody kline) (klineUpperShadow kline)
                     (klineLowerShadow kline) (klineTotalRange kline) = false).
  { destruct (abs_cases (Close kline - Open kline)%float) as [Hnan|[Hzero|Hpos]].
    - unfold bullishPinBar. fold (klineBody kline) in Hnan.
      by rewrite (ltb_nan_l (klineBody kline) _ Hnan), andb_false_r.
    - unfold klineBody, math.Abs in Hbody. congruence.
    - by apply pinBar_exclusive. }
  destruct (bullishPinBar _ _ _ _), (bearishPinBar _ _ _ _); simpl in *; (lia || done).
Qed.

(** C9.  [DetectPinBar] returns at most one signal, whatever the cache
    holds; and for a positive body the bullish and the bearish test cannot
    both succeed, since the lower shadow would have to lie strictly above
    [body * 1.5] and strictly below [body]. *)
Theorem DetectPinBar_at_most_one :
  (forall (kc : KlineCache) symbol tf, length (DetectPinBar kc symbol tf) <= 1)
  /\ (forall body upperShadow lowerShadow totalRange : float,
        (0 <? body)%float = true ->
        bullishPinBar body upperShadow lowerShadow totalRange
        && bearishPinBar body upperShadow lowerShadow totalRange = false).
Proof.
  split.
  - intros kc symbol tf. unfold DetectPinBar.
    destruct (GetLatestKline kc symbol tf); [apply pinBarSignals_length|simpl; lia..].
  - apply pinBar_exclusive.
Qed.

Lemma DetectPinBar_at_most_one_witness :
  bullishPinBar 0.5 0.25 10 10.75 && bearishPinBar 0.5 0.25 10 10.75 = false.
Proof.
  apply (proj2 DetectPinBar_at_most_one 0.5 0.25 10 10.75)%float. reflexivity.
Defined.




(** A hammer: the same candle with a close of 100.8, so that the upper
    shadow is shorter than the body. *)
Example DetectPinBar_hammer :
  exists signal,
    DetectPinBar (cache_of "BTCUSDT" "5m" [candle 300000 100 101 90 100.8 10])
                 "BTCUSDT" "5m" = [signal]
    /\ TradingSignal.SignalType signal = SignalBullishPinBar
    /\ TradingSignal.Direction signal = "long"%string
    /\ TradingSignal.Confidence signal = 100%Z.
Proof. eexists. repeat split. Qed.

(** ** Engulfing patterns *)

Lemma elem_of_engulfingSignals_long symbol tf prevKline currentKline signal :
  signal ∈ engulfingSignals symbol tf prevKline currentKline ->
  TradingSignal.Direction signal = "long"%string ->
  bullishEngulfing prevKline currentKline = true
  /\ TradingSignal.Confidence signal
     = engulfingConfidence (klineBody prevKline) (klineBody currentKline).
Proof.
  unfold engulfingSignals.
  destruct (bullishEngulfing _ _), (bearishEngulfing _ _); cbn [app];
    rewrite ?elem_of_cons; intros Hin Hdir;
    repeat match goal with
           | H : _ \/ _ |- _ => destruct H as [->|H]
           | H : _ ∈ [] |- _ => by apply elem_of_nil in H
           end;
    done.
Qed.

(** C7.  Let [prevKline] and [currentKline] be the latest two stored
    candles of a symbol and timeframe.  [DetectEngulfing] returns a long
    signal exactly when the previous candle closed below its open, the
    current one closed above its open, opened below the previous close,
    closed above the previous open, and has the larger body; the confidence
    of that signal is 90 when the current body exceeds the previous body
    times 1.5, and 80 otherwise.  For a previous candle from 105 down to 100
    and a current one from 99 up to 107 it returns one signal: long, with
    confidence 90. *)
Theorem DetectEngulfing_bullish (kc : KlineCache) symbol tf mtk older prevKline currentKline :
  kc !! symbol = Some mtk ->
  Data mtk !! tf = Some (older ++ [prevKline; currentKline]) ->
  ((exists signal, signal ∈ DetectEngulfing kc symbol tf
                   /\ TradingSignal.Direction signal = "long"%string)
   <-> ((Close prevKline <? Open prevKline)%float = true
        /\ (Open currentKline <? Close currentKline)%float = true
        /\ (Open currentKline <? Close prevKline)%float = true
        /\ (Open prevKline <? Close currentKline)%float = true
        /\ (math.Abs (Close prevKline - Open prevKline)
            <? math.Abs (Close currentKline - Open currentKline))%float = true))
  /\ (forall signal,
        signal ∈ DetectEngulfing kc symbol tf ->
        TradingSignal.Direction signal = "long"%string ->
        TradingSignal.Confidence signal
        = if (math.Abs (Close prevKline - Open prevKline) * 1.5
              <? math.Abs (Close currentKline - Open currentKline))%float
          then 90%Z else 80%Z)
  /\ (Open prevKline = 105%float -> Close prevKline = 100%float ->
      Open currentKline = 99%float -> Close currentKline = 107%float ->
      exists signal,
        DetectEngulfing kc symbol tf = [signal]
        /\ TradingSignal.Direction signal = "long"%string
        /\ TradingSignal.Confidence signal = 90%Z).
Proof.
  intros Hs Ht.
  assert (Hread : DetectEngulfing kc symbol tf
                  = engulfingSignals symbol tf prevKline currentKline).
  { unfold DetectEngulfing.
    by rewrite (GetLatestTwoKlines_stored kc symbol tf mtk older prevKline currentKline). }
  rewrite Hread. split; [|split].
  - split.
    + intros (signal & Hin & Hdir).
      destruct (elem_of_engulfingSignals_long _ _ _ _ _ Hin Hdir) as [Hbull _].
      unfold bullishEngulfing in Hbull. rewrite !andb_true_iff in Hbull. tauto.
    + intros (H1 & H2 & H3 & H4 & H5).
      unfold engulfingSignals, bullishEngulfing. rewrite H1, H2, H3, H4, H5.
      cbn [andb app].
      destruct (bearishEngulfing prevKline currentKline);
        eexists; (split; [left|]); done.
  - intros signal Hin Hdir.
    by destruct (elem_of_engulfingSignals_long _ _ _ _ _ Hin Hdir) as [_ ->].
  - destruct prevKline as [pt po ph pl pc pv], currentKline as [ct co ch cl cc cv].
    simpl. intros -> -> -> ->. eexists. repeat split.
Qed.

Lemma DetectEngulfing_bullish_witness :
  let prevKline := candle 300000 105 106 99.5 100 10 in
  let currentKline := candle 600000 99 108 98 107 12 in
  let kc := cache_of "BTCUSDT" "5m" [prevKline; currentKline] in
  (exists signal, signal ∈ DetectEngulfing kc "BTCUSDT" "5m"
                  /\ TradingSignal.Direction signal = "long"%string)
  /\ (exists signal,
        DetectEngulfing kc "BTCUSDT" "5m" = [signal]
        /\ TradingSignal.Direction signal = "long"%string
        /\ TradingSignal.Confidence signal = 90%Z).
Proof.
  pose proof (DetectEngulfing_bullish
                (cache_of "BTCUSDT" "5m"
                   [candle 300000 105 106 99.5 100 10; candle 600000 99 108 98 107 12])
                "BTCUSDT" "5m"
                {| Symbol := "BTCUSDT";
                   Data := {[ "5m" := [candle 300000 105 106 99.5 100 10;
                                       candle 600000 99 108 98 107 12] ]} |}
                [] (candle 300000 105 106 99.5 100 10) (candle 600000 99 108 98 107 12)
                eq_refl eq_refl) as (Hiff & _ & Hsample).
  split.
  - apply (proj2 Hiff). repeat split; reflexivity.
  - apply Hsample; reflexivity.
Defined.

(** ** Volume spikes and strong signals *)

(** A volume that doubles on a falling candle: one short signal, with the
    confidence of the tier that starts at a ratio of 2. *)
Example DetectVolumeSpike_doubled :
  exists signal,
    DetectVolumeSpike
      (cache_of "BTCUSDT" "5m"
         [candle 300000 100 101 99 100.5 100; candle 600000 100.5 101 98 99 200])
      "BTCUSDT" "5m" = [signal]
    /\ TradingSignal.Direction signal = "short"%string
    /\ TradingSignal.Confidence signal = 85%Z.
Proof. eexists. repeat split. Qed.

Lemma FilterStrongSignals_filter signals :
  FilterStrongSignals signals
  = filter (fun signal => (80 <= TradingSignal.Confidence signal)%Z) signals.
Proof.
  unfold FilterStrongSignals.
  induction signals as [|signal signals IH] using rev_ind; [done|].
  rewrite foldl_snoc, filter_app, IH, filter_cons, filter_nil.
  destruct (Z.leb_spec 80 (TradingSignal.Confidence signal));
    case_decide; (done || lia || by rewrite app_nil_r).
Qed.

(** ** Grouping signals *)

Lemma underscores_app s1 s2 :
  underscores (s1 +:+ s2) = underscores s1 + underscores s2.
Proof. induction s1 as [|c s1 IH]; simpl; [done|]. rewrite IH. lia. Qed.

(** A string is split in one way at its first underscore. *)
Lemma split_first_underscore a1 a2 b1 b2 :
  underscoreFree a1 -> underscoreFree a2 ->
  a1 +:+ "_" +:+ b1 = a2 +:+ "_" +:+ b2 -> a1 = a2 /\ b1 = b2.
Proof.
  unfold underscoreFree. revert a2.
  induction a1 as [|c1 a1 IH]; intros [|c2 a2]; cbn; intros H1 H2 Heq.
  - by simplify_eq.
  - simplify_eq; cbn in *; lia.
  - simplify_eq; cbn in *; lia.
  - injection Heq as -> Heq.
    destruct (IH a2) as [-> ->]; [lia|lia|done|done].
Qed.

Lemma signalKey_inj s1 s2 :
  underscoreFree (TradingSignal.TimeFrame s1) ->
  underscoreFree (TradingSignal.Direction s1) ->
  underscoreFree (TradingSignal.TimeFrame s2) ->
  underscoreFree (TradingSignal.Direction s2) ->
  signalKey s1 = signalKey s2 <-> sameGroup s1 s2.
Proof.
  unfold signalKey, sameGroup.
  destruct s1 as [sym1 tf1 ty1 dir1 p1 sl1 c1 r1], s2 as [sym2 tf2 ty2 dir2 p2 sl2 c2 r2].
  simpl. intros Htf1 Hdir1 Htf2 Hdir2. split; [|by intros (-> & -> & ->)].
  revert sym2. induction sym1 as [|a sym1 IH]; intros [|b sym2]; cbn; intros Heq.
  - injection Heq as Heq.
    by destruct (split_first_underscore _ _ _ _ Htf1 Htf2 Heq) as [-> ->].
  - injection Heq as <- Heq. apply (f_equal underscores) in Heq.
    rewrite !underscores_app in Heq. unfold underscoreFree in *. cbn in Heq. lia.
  - injection Heq as -> Heq. apply (f_equal underscores) in Heq.
    rewrite !underscores_app in Heq. unfold underscoreFree in *. cbn in Heq. lia.
  - injection Heq as -> Heq. by destruct (IH sym2 Heq) as (-> & -> & ->).
Qed.

(** The group [CombineSignals] stores under a key: the signals with that
    key, in the order of the input, and no entry when there is none. *)
Lemma CombineSignals_lookup signals key :
  CombineSignals signals !! key
  = match filter (fun signal => signalKey signal = key) signals with
    | [] => None
    | group => Some group
    end.
Proof.
  unfold CombineSignals.
  induction signals as [|signal signals IH] using rev_ind; [done|].
  rewrite foldl_snoc, filter_app. cbv zeta.
  destruct (decide (signalKey signal = key)) as [<-|Hne].
  - rewrite lookup_insert_eq, IH, filter_cons_True, filter_nil by done.
    by destruct (filter _ signals).
  - rewrite lookup_insert_ne, IH, filter_cons_False, filter_nil, app_nil_r by done.
    done.
Qed.

Lemma filter_equiv_on {A} (P Q : A -> Prop) `{!forall x, Decision (P x)}
    `{!forall x, Decision (Q x)} (l : list A) :
  Forall (fun x => P x <-> Q x) l -> filter P l = filter Q l.
Proof.
  induction 1 as [|x l Hx _ IH]; [done|].
  rewrite !filter_cons, IH. repeat case_decide; tauto || done.
Qed.

(** C8.  For signals whose timeframe and direction hold no underscore, as
    the declared timeframes and the directions long and short do,
    [CombineSignals] maps the key of every signal to the signals of the
    input that agree with it on symbol, timeframe and direction, in the
    order of the input; two signals have the same key, and so are in the
    same group, exactly when they agree on the three; and the map has no
    other entry. *)
Theorem CombineSignals_groups (signals : list TradingSignal.t) :
  Forall (fun signal => underscoreFree (TradingSignal.TimeFrame signal)
                        /\ underscoreFree (TradingSignal.Direction signal)) signals ->
  (forall signal, signal ∈ signals ->
     CombineSignals signals !! signalKey signal
     = Some (filter (sameGroup signal) signals))
  /\ (forall s1 s2, s1 ∈ signals -> s2 ∈ signals ->
        signalKey s1 = signalKey s2 <-> sameGroup s1 s2)
  /\ (forall key group, CombineSignals signals !! key = Some group ->
        exists signal, signal ∈ signals /\ key = signalKey signal).
Proof.
  intros Hwf. rewrite Forall_forall in Hwf.
  assert (Hinj : forall s1 s2, s1 ∈ signals -> s2 ∈ signals ->
                   signalKey s1 = signalKey s2 <-> sameGroup s1 s2).
  { intros s1 s2 H1 H2. destruct (Hwf s1 H1), (Hwf s2 H2). by apply signalKey_inj. }
  split; [|split; [done|]].
  - intros signal Hin. rewrite CombineSignals_lookup.
    rewrite (filter_equiv_on _ (sameGroup signal)).
    + destruct (filter (sameGroup signal) signals) eqn:Hfilter; [|done].
      apply (filter_nil_not_elem_of _ _ signal) in Hfilter; [done|].
      by unfold sameGroup.
    + apply Forall_forall. intros s2 H2.
      split; intros H; [by apply Hinj|symmetry; by apply Hinj].
  - intros key group. rewrite CombineSignals_lookup.
    destruct (filter _ signals) as [|signal rest] eqn:Hfilter; [done|].
    intros _. exists signal.
    assert (Hin : signal ∈ filter (fun s => signalKey s = key) signals)
      by (rewrite Hfilter; left).
    apply list_elem_of_filter in Hin as [Hkey Hin]. done.
Qed.

Lemma CombineSignals_groups_witness :
  CombineSignals [sigEngulfing; sigSpikeShort; sigSpikeLong] !! "BTC_USDC_5m_long"%string
  = Some [sigEngulfing; sigSpikeLong].
Proof.
  apply (proj1 (CombineSignals_groups [sigEngulfing; sigSpikeShort; sigSpikeLong]
                  ltac:(repeat constructor)) sigEngulfing).
  left.
Defined.

(** The declared timeframes and the two directions hold no underscore. *)
Lemma declared_underscoreFree :
  Forall underscoreFree timeFrames /\ underscoreFree "long" /\ underscoreFree "short".
Proof. repeat constructor. Qed.

(** With an underscore in a timeframe the key no longer tells the symbol
    from the timeframe: two signals that differ in both share a key. *)
Lemma signalKey_collision :
  signalKey (TradingSignal.mk "BTC" "USDC_5m" SignalEngulfing "long" 1 1 80
               ReasonBullishEngulfing)
  = signalKey (TradingSignal.mk "BTC_USDC" "5m" SignalEngulfing "long" 1 1 80
                 ReasonBullishEngulfing).
Proof. reflexivity. Qed.

(** ** Concurrent initialization *)

Lemma fullFetch_nonempty symbol maxKlines : fullFetch symbol maxKlines <> [].
Proof. done. Qed.

Lemma fetched_all symbol maxKlines done :
  done ++ [] = timeFrames ->
  (fun tf => (symbol, default ""%string (BinanceIntervalMap !! tf), maxKlines)) <$> done
  = fullFetch symbol maxKlines.
Proof. rewrite app_nil_r. by intros ->. Qed.

Lemma fetched_more (symbol : string) (maxKlines : Z) done tf rest :
  done ++ tf :: rest = timeFrames ->
  (done ++ [tf]) ++ rest = timeFrames
  /\ ((fun tf => (symbol, default ""%string (BinanceIntervalMap !! tf), maxKlines)) <$> done)
       ++ [(symbol, default ""%string (BinanceIntervalMap !! tf), maxKlines)]
     = (fun tf => (symbol, default ""%string (BinanceIntervalMap !! tf), maxKlines))
         <$> (done ++ [tf]).
Proof. intros <-. split; [by rewrite <- app_assoc|by rewrite fmap_app]. Qed.

Lemma step_ok symbol maxKlines c client st :
  systemOk symbol maxKlines st ->
  systemOk symbol maxKlines (step symbol maxKlines c client st).
Proof.
  destruct st as [kc mu [p1 b1 f1] [p2 b2 f2]].
  intros (Hg & Hnone & Hsome).
  pose proof (Hg First) as H1. pose proof (Hg Second) as H2.
  pose proof (fun H => Hnone H First) as Hn1.
  pose proof (fun H => Hnone H Second) as Hn2.
  clear Hg Hnone.
  unfold systemOk, goroutineOk in *. cbn -[fullFetch timeFrames BinanceIntervalMap initTimeFrame] in H1, H2, Hn1, Hn2, Hsome.
  destruct c; unfold step; cbn -[fullFetch timeFrames BinanceIntervalMap initTimeFrame].
  - destruct p1 as [| |data [|tf rest]| |err]; cbn -[fullFetch timeFrames BinanceIntervalMap initTimeFrame].
    + destruct mu as [holder|]; cbn -[fullFetch timeFrames BinanceIntervalMap initTimeFrame].
      * split; [intros []; done|]. split; [intros Hk c Hc; destruct c; cbn -[fullFetch timeFrames BinanceIntervalMap initTimeFrame] in *; naive_solver|naive_solver].
      * split; [intros []; cbn -[fullFetch timeFrames BinanceIntervalMap initTimeFrame]; [naive_solver|destruct p2; naive_solver]|].
        split; [intros Hk c Hc; destruct c; cbn -[fullFetch timeFrames BinanceIntervalMap initTimeFrame] in *; naive_solver|naive_solver].
    + destruct (kc !! symbol) as [mtk|] eqn:Hkc; cbn -[fullFetch timeFrames BinanceIntervalMap initTimeFrame].
      * split; [intros []; cbn -[fullFetch timeFrames BinanceIntervalMap initTimeFrame]; [naive_solver|destruct p2; naive_solver]|].
        split; [intros Hk c Hc; destruct c; cbn -[fullFetch timeFrames BinanceIntervalMap initTimeFrame] in *; naive_solver|naive_solver].
      * split; [intros []; cbn -[fullFetch timeFrames BinanceIntervalMap initTimeFrame]; [|destruct p2; naive_solver]|].
        { destruct H1 as (-> & -> & ->). repeat split; try done. by exists []. }
        split; [intros Hk c Hc; destruct c; cbn -[fullFetch timeFrames BinanceIntervalMap initTimeFrame] in *; naive_solver|]. rewrite Hkc. by intros [? ?].
    + destruct H1 as (-> & Hkc & -> & done & Hdone & ->).
      apply (fetched_all symbol (maxKlines First)) in Hdone.
      rewrite lookup_insert_eq.
      split; [intros []; cbn -[fullFetch timeFrames BinanceIntervalMap initTimeFrame]; [|rewrite Hkc in H2; destruct p2; naive_solver]|].
      { naive_solver. }
      split; [done|]. intros _. left. split; [done|]. naive_solver.
    + destruct H1 as (-> & Hkc & -> & done & Hdone & ->).
      apply (fetched_more symbol (maxKlines First)) in Hdone as [Hdone Hf].
      split; [intros []; cbn -[fullFetch timeFrames BinanceIntervalMap initTimeFrame]; [|destruct p2; naive_solver]|].
      { rewrite Hf. naive_solver. }
      split; [intros Hk c Hc; destruct c; cbn -[fullFetch timeFrames BinanceIntervalMap initTimeFrame] in *; naive_solver|]. rewrite Hkc. by intros [? ?].
    + split; [intros []; cbn -[fullFetch timeFrames BinanceIntervalMap initTimeFrame]; [naive_solver|destruct p2; naive_solver]|].
      split; [|naive_solver].
      intros Hk. rewrite Hk in H1. by destruct H1 as (_ & [? ?] & _).
    + split; [intros []; done|]. split; [intros Hk c Hc; destruct c; cbn -[fullFetch timeFrames BinanceIntervalMap initTimeFrame] in *; naive_solver|naive_solver].
  - destruct p2 as [| |data [|tf rest]| |err]; cbn -[fullFetch timeFrames BinanceIntervalMap initTimeFrame].
    + destruct mu as [holder|]; cbn -[fullFetch timeFrames BinanceIntervalMap initTimeFrame].
      * split; [intros []; done|]. split; [intros Hk c Hc; destruct c; cbn -[fullFetch timeFrames BinanceIntervalMap initTimeFrame] in *; naive_solver|naive_solver].
      * split; [intros []; cbn -[fullFetch timeFrames BinanceIntervalMap initTimeFrame]; [destruct p1; naive_solver|naive_solver]|].
        split; [intros Hk c Hc; destruct c; cbn -[fullFetch timeFrames BinanceIntervalMap initTimeFrame] in *; naive_solver|naive_solver].
    + destruct (kc !! symbol) as [mtk|] eqn:Hkc; cbn -[fullFetch timeFrames BinanceIntervalMap initTimeFrame].
      * split; [intros []; cbn -[fullFetch timeFrames BinanceIntervalMap initTimeFrame]; [destruct p1; naive_solver|naive_solver]|].
        split; [intros Hk c Hc; destruct c; cbn -[fullFetch timeFrames BinanceIntervalMap initTimeFrame] in *; naive_solver|naive_solver].
      * split; [intros []; cbn -[fullFetch timeFrames BinanceIntervalMap initTimeFrame]; [destruct p1; naive_solver|]|].
        { destruct H2 as (-> & -> & ->). repeat split; try done. by exists []. }
        split; [intros Hk c Hc; destruct c; cbn -[fullFetch timeFrames BinanceIntervalMap initTimeFrame] in *; naive_solver|]. rewrite Hkc. by intros [? ?].
    + destruct H2 as (-> & Hkc & -> & done & Hdone & ->).
      apply (fetched_all symbol (maxKlines Second)) in Hdone.
      rewrite lookup_insert_eq.
      split; [intros []; cbn -[fullFetch timeFrames BinanceIntervalMap initTimeFrame]; [rewrite Hkc in H1; destruct p1; naive_solver|]|].
      { naive_solver. }
      split; [done|]. intros _. right. split; [naive_solver|done].
    + destruct H2 as (-> & Hkc & -> & done & Hdone & ->).
      apply (fetched_more symbol (maxKlines Second)) in Hdone as [Hdone Hf].
      split; [intros []; cbn -[fullFetch timeFrames BinanceIntervalMap initTimeFrame]; [destruct p1; naive_solver|]|].
      { rewrite Hf. naive_solver. }
      split; [intros Hk c Hc; destruct c; cbn -[fullFetch timeFrames BinanceIntervalMap initTimeFrame] in *; naive_solver|]. rewrite Hkc. by intros [? ?].
    + split; [intros []; cbn -[fullFetch timeFrames BinanceIntervalMap initTimeFrame]; [destruct p1; naive_solver|naive_solver]|].
      split; [|naive_solver].
      intros Hk. rewrite Hk in H2. by destruct H2 as (_ & [? ?] & _).
    + split; [intros []; done|]. split; [intros Hk c Hc; destruct c; cbn -[fullFetch timeFrames BinanceIntervalMap initTimeFrame] in *; naive_solver|naive_solver].
Qed.

Lemma initial_ok symbol maxKlines (kc : KlineCache) :
  kc !! symbol = None -> systemOk symbol maxKlines (initial kc).
Proof.
  intros Hkc. unfold systemOk, initial. cbn -[fullFetch timeFrames BinanceIntervalMap initTimeFrame]. rewrite Hkc.
  split; [by intros []|]. split; [by intros _ []|]. by intros [? ?].
Qed.

Lemma run_ok symbol maxKlines schedule : forall st,
  systemOk symbol maxKlines st ->
  systemOk symbol maxKlines (run symbol maxKlines schedule st).
Proof.
  unfold run. induction schedule as [|[c client] schedule IH]; intros st Hok; [done|].
  cbn [foldl]. apply IH. by apply step_ok.
Qed.

(** A caller that waits for the mutex does not move. *)
Lemma step_blocked symbol maxKlines c client st :
  systemOk symbol maxKlines st -> sys_mu st = Some (other c) ->
  step symbol maxKlines c client st = st.
Proof.
  intros (Hg & _ & _) Hmu. specialize (Hg c). unfold goroutineOk in Hg.
  unfold step. rewrite Hmu in *.
  destruct c, (at_ (goroutineOf st _)) as [| |data [|tf rest]| |err];
    naive_solver.
Qed.

(** A caller that does not wait comes one statement closer to its return,
    and leaves the other caller as it is. *)
Lemma step_progress symbol maxKlines c client st :
  systemOk symbol maxKlines st -> sys_mu st <> Some (other c) ->
  let st' := step symbol maxKlines c client st in
  sys_mu st' <> Some (other c)
  /\ stepsLeft (at_ (goroutineOf st' c)) <= pred (stepsLeft (at_ (goroutineOf st c)))
  /\ goroutineOf st' (other c) = goroutineOf st (other c).
Proof.
  intros (Hg & _ & _) Hmu. specialize (Hg c). unfold goroutineOk in Hg.
  destruct st as [kc mu [p1 b1 f1] [p2 b2 f2]].
  destruct c; unfold step; cbn -[fullFetch timeFrames BinanceIntervalMap initTimeFrame] in *.
  - destruct p1 as [| |data [|tf rest]| |err]; cbn -[fullFetch timeFrames BinanceIntervalMap initTimeFrame];
      try (destruct mu as [[|]|]); try (destruct (kc !! symbol)); cbn -[fullFetch timeFrames BinanceIntervalMap initTimeFrame];
      repeat split; try done; try lia; naive_solver.
  - destruct p2 as [| |data [|tf rest]| |err]; cbn -[fullFetch timeFrames BinanceIntervalMap initTimeFrame];
      try (destruct mu as [[|]|]); try (destruct (kc !! symbol)); cbn -[fullFetch timeFrames BinanceIntervalMap initTimeFrame];
      repeat split; try done; try lia; naive_solver.
Qed.

Lemma stepsLeft_bound symbol maxKlines st c :
  systemOk symbol maxKlines st -> stepsLeft (at_ (goroutineOf st c)) <= 10.
Proof.
  intros (Hg & _ & _). specialize (Hg c). unfold goroutineOk in Hg.
  destruct (at_ (goroutineOf st c)) as [| |data rest| |err]; cbn -[fullFetch timeFrames BinanceIntervalMap initTimeFrame]; try lia.
  destruct Hg as (_ & _ & _ & done & Hdone & _).
  apply (f_equal length) in Hdone. rewrite length_app in Hdone.
  change (length timeFrames) with 6 in Hdone. lia.
Qed.

Lemma run_blocked symbol maxKlines c client n st :
  systemOk symbol maxKlines st -> sys_mu st = Some (other c) ->
  run symbol maxKlines (replicate n (c, client)) st = st.
Proof.
  intros Hok Hmu. unfold run. induction n as [|n IH]; [done|].
  cbn [replicate foldl fst snd]. by rewrite step_blocked.
Qed.

(** A caller that is given enough statements in a row, and does not have
    to wait, returns nil and leaves the mutex free. *)
Lemma run_completes symbol maxKlines c client n : forall st,
  systemOk symbol maxKlines st -> sys_mu st <> Some (other c) ->
  stepsLeft (at_ (goroutineOf st c)) <= n ->
  let st' := run symbol maxKlines (replicate n (c, client)) st in
  sys_mu st' = None
  /\ at_ (goroutineOf st' c) = Returned None
  /\ goroutineOf st' (other c) = goroutineOf st (other c).
Proof.
  induction n as [|n IH]; intros st Hok Hmu Hn.
  - cbn -[fullFetch timeFrames BinanceIntervalMap initTimeFrame]. destruct Hok as (Hg & _ & _). specialize (Hg c). unfold goroutineOk in Hg.
    destruct (at_ (goroutineOf st c)) as [| |data rest| |err]; cbn -[fullFetch timeFrames BinanceIntervalMap initTimeFrame] in Hn; try lia.
    destruct Hg as (-> & Hme & _).
    destruct (sys_mu st) as [[|]|], c; naive_solver.
  - unfold run. cbn [replicate foldl fst snd].
    destruct (step_progress symbol maxKlines c client st Hok Hmu) as (Hmu' & Hless & Hsame).
    destruct (IH (step symbol maxKlines c client st)) as (Hfree & Hret & Hother);
      [by apply step_ok|done|lia|].
    unfold run in *. rewrite Hfree, Hret, Hother. done.
Qed.

(** A caller that runs alone does what the function [InitSymbol] does. *)
Lemma run_alone symbol maxKlines client (kc : KlineCache) :
  let st := run symbol maxKlines (replicate 10 (First, client)) (initial kc) in
  sys_cache st = fst (InitSymbol client symbol (maxKlines First) kc)
  /\ at_ (sys_first st) = Returned (snd (InitSymbol client symbol (maxKlines First) kc))
  /\ fetches (sys_first st)
     = match kc !! symbol with
       | Some _ => []
       | None => fullFetch symbol (maxKlines First)
       end.
Proof.
  unfold InitSymbol, run, initial. cbn [replicate foldl fst snd].
  (* the innermost statement of the schedule runs in a known state *)
  assert (Hstep : forall c kc' mu g1 g2 st',
            st' = step symbol maxKlines c client (Build_system kc' mu g1 g2) ->
            step symbol maxKlines c client (Build_system kc' mu g1 g2) = st')
    by (by intros; subst).
  do 2 (erewrite Hstep;
        [|cbv [step goroutineOf setGoroutine setMu setCache at_ found fetches
               sys_cache sys_mu sys_first sys_second timeFrames]; reflexivity]).
  destruct (kc !! symbol) as [mtk|];
    repeat (erewrite Hstep;
            [|cbv [step goroutineOf setGoroutine setMu setCache at_ found fetches
                   sys_cache sys_mu sys_first sys_second timeFrames]; reflexivity]);
    repeat split; reflexivity.
Qed.

Lemma run_app symbol maxKlines schedule more st :
  run symbol maxKlines (schedule ++ more) st
  = run symbol maxKlines more (run symbol maxKlines schedule st).
Proof. unfold run. apply foldl_app. Qed.

Lemma both_return_states symbol maxKlines client st st1 st2 st3 :
  systemOk symbol maxKlines st ->
  st1 = run symbol maxKlines (replicate 10 (First, client)) st ->
  st2 = run symbol maxKlines (replicate 10 (Second, client)) st1 ->
  st3 = run symbol maxKlines (replicate 10 (First, client)) st2 ->
  at_ (sys_first st3) = Returned None /\ at_ (sys_second st3) = Returned None.
Proof.
  intros Hok E1 E2 E3.
  assert (Hok1 : systemOk symbol maxKlines st1) by (rewrite E1; by apply run_ok).
  assert (Hmu1 : sys_mu st1 <> Some First).
  { destruct (decide (sys_mu st = Some Second)) as [Hheld|Hfree].
    - rewrite (run_blocked symbol maxKlines First) in E1 by assumption.
      rewrite E1, Hheld. discriminate.
    - destruct (run_completes symbol maxKlines First client 10 st)
        as (Hmu & _ & _);
        [assumption|assumption|by apply stepsLeft_bound with symbol maxKlines|].
      rewrite <- E1 in Hmu. rewrite Hmu. discriminate. }
  destruct (run_completes symbol maxKlines Second client 10 st1)
    as (Hmu2 & Hret2 & _);
    [assumption|assumption|by apply stepsLeft_bound with symbol maxKlines|].
  rewrite <- E2 in Hmu2, Hret2.
  assert (Hok2 : systemOk symbol maxKlines st2) by (rewrite E2; by apply run_ok).
  destruct (run_completes symbol maxKlines First client 10 st2)
    as (_ & Hret3 & Hsame);
    [assumption|rewrite Hmu2; discriminate
    |by apply stepsLeft_bound with symbol maxKlines|].
  rewrite <- E3 in Hret3, Hsame. cbn [other goroutineOf] in Hsame, Hret2, Hret3.
  split; [exact Hret3|]. rewrite Hsame. exact Hret2.
Qed.

(** Whatever the schedule so far, the two callers return when each is given
    its remaining statements in a row. *)
Lemma both_return symbol maxKlines client st :
  systemOk symbol maxKlines st ->
  at_ (sys_first
         (run symbol maxKlines
            (replicate 10 (First, client) ++ replicate 10 (Second, client)
             ++ replicate 10 (First, client)) st)) = Returned None
  /\ at_ (sys_second
            (run symbol maxKlines
               (replicate 10 (First, client) ++ replicate 10 (Second, client)
                ++ replicate 10 (First, client)) st)) = Returned None.
Proof.
  intros Hok. rewrite !run_app.
  exact (both_return_states symbol maxKlines client st _ _ _ Hok
           eq_refl eq_refl eq_refl).
Qed.

(** The invariant on the candles. *)
Lemma cacheOk_move symbol maxKlines client kc c st st' :
  sys_cache st' = sys_cache st ->
  goroutineOf st' (other c) = goroutineOf st (other c) ->
  (fetches (goroutineOf st c) <> [] -> fetches (goroutineOf st' c) <> []) ->
  match at_ (goroutineOf st' c) with
  | AtFetch data rest =>
      exists done, done ++ rest = timeFrames
        /\ data = foldl (initTimeFrame client symbol (maxKlines c)) ∅ done
  | _ => True
  end ->
  cacheOk symbol maxKlines client kc st -> cacheOk symbol maxKlines client kc st'.
Proof.
  intros Hcache Hother Hfetches Hpos (Hp & Hc). split.
  - intros c0. destruct (decide (c0 = c)) as [->|Hne]; [exact Hpos|].
    replace c0 with (other c) by (destruct c, c0; done).
    rewrite Hother. apply Hp.
  - rewrite Hcache. destruct (sys_cache st !! symbol); [|done].
    destruct Hc as (winner & Hw & Heq). exists winner. split; [|done].
    destruct (decide (winner = c)) as [->|Hne]; [by apply Hfetches|].
    replace winner with (other c) in * by (destruct c, winner; done).
    by rewrite Hother.
Qed.

Lemma step_cacheOk symbol maxKlines client kc c cl st :
  systemOk symbol maxKlines st -> cacheOk symbol maxKlines client kc st ->
  answersAs symbol maxKlines client (c, cl) ->
  cacheOk symbol maxKlines client kc (step symbol maxKlines c cl st).
Proof.
  intros (Hg & _ & _) Hok Hans.
  pose proof (Hg c) as Hc. unfold goroutineOk in Hc.
  pose proof (proj1 Hok c) as Hpc.
  unfold step.
  destruct (at_ (goroutineOf st c)) as [| |data [|tf rest]| |err] eqn:Hat.
  - destruct (sys_mu st); [done|].
    apply (cacheOk_move symbol maxKlines client kc c st); [by destruct c..| |done].
    by destruct c.
  - destruct (sys_cache st !! symbol) eqn:Hsym.
    + apply (cacheOk_move symbol maxKlines client kc c st); [by destruct c..| |done].
      by destruct c.
    + apply (cacheOk_move symbol maxKlines client kc c st); [by destruct c..| |done].
      * destruct c; cbn; by exists [].
  - destruct Hc as (_ & Hnone & _ & done' & Hdone' & Hf).
    destruct Hpc as (done & Hdone & ->).
    rewrite app_nil_r in Hdone, Hdone'. subst done done'.
    destruct Hok as (Hp & Hcache). rewrite Hnone in Hcache.
    split.
    + intros c0. destruct (decide (c0 = c)) as [->|Hne]; [by destruct c|].
      replace c0 with (other c) by (destruct c, c0; done).
      specialize (Hp (other c)). by destruct c.
    + assert (Hkc : kc !! symbol = None) by (by rewrite <- Hcache).
      assert (Hnew : sys_cache
                       (setGoroutine
                          (setCache st
                             (<[symbol := {| Symbol := symbol;
                                             Data := foldl (initTimeFrame client symbol
                                                              (maxKlines c)) ∅ timeFrames |}]>
                                (sys_cache st)))
                          c {| at_ := AtUnlock; found := found (goroutineOf st c);
                               fetches := fetches (goroutineOf st c) |})
                     = fst (InitSymbol client symbol (maxKlines c) kc)).
      { unfold InitSymbol. rewrite Hkc, <- Hcache. by destruct c. }
      rewrite Hnew. unfold InitSymbol at 1. rewrite Hkc. cbn [fst].
      rewrite lookup_insert_eq. exists c. split; [|done].
      replace (fetches (goroutineOf _ c)) with (fetches (goroutineOf st c))
        by (by destruct c).
      rewrite Hf. by unfold timeFrames.
  - destruct Hc as (_ & Hnone & _ & _).
    destruct Hpc as (done & Hdone & ->).
    apply (cacheOk_move symbol maxKlines client kc c st); [by destruct c..| | |done].
    + destruct c; cbn; intros _; by destruct (fetches _).
    + assert (Hsame : initTimeFrame cl symbol (maxKlines c)
                        (foldl (initTimeFrame client symbol (maxKlines c)) ∅ done) tf
                      = foldl (initTimeFrame client symbol (maxKlines c)) ∅ (done ++ [tf])).
      { rewrite foldl_snoc. unfold initTimeFrame. by rewrite (Hans _). }
      destruct c; cbn -[timeFrames initTimeFrame]; exists (done ++ [tf]);
        (split; [by rewrite <- app_assoc|exact Hsame]).
  - apply (cacheOk_move symbol maxKlines client kc c st); [by destruct c..| |done].
    by destruct c.
  - done.
Qed.

Lemma initial_cacheOk symbol maxKlines client (kc : KlineCache) :
  kc !! symbol = None -> cacheOk symbol maxKlines client kc (initial kc).
Proof.
  intros Hkc. split; [by intros []|]. cbn. by rewrite Hkc.
Qed.

Lemma run_cacheOk symbol maxKlines client kc schedule : forall st,
  systemOk symbol maxKlines st -> cacheOk symbol maxKlines client kc st ->
  Forall (answersAs symbol maxKlines client) schedule ->
  cacheOk symbol maxKlines client kc (run symbol maxKlines schedule st).
Proof.
  unfold run. induction schedule as [|[c cl] schedule IH]; intros st Hok Hcache Hans;
    [done|].
  apply Forall_cons in Hans as [Hans Hrest].
  cbn [foldl fst snd]. apply IH; [by apply step_ok|by apply step_cacheOk|done].
Qed.

(** The record a full initialization installs holds, for each of the six
    timeframes, what the provider answered. *)
Lemma InitSymbol_record client symbol maxKlines (kc : KlineCache) :
  kc !! symbol = None ->
  exists mtk,
    fst (InitSymbol client symbol maxKlines kc) !! symbol = Some mtk
    /\ Symbol mtk = symbol
    /\ forall tf : string,
         Data mtk !! tf
         = if decide (tf ∈ timeFrames) then client symbol tf maxKlines else None.
Proof.
  intros Hkc. unfold InitSymbol. rewrite Hkc. cbn [fst].
  eexists. split; [apply lookup_insert_eq|]. split; [done|].
  intros tf. cbn [Data].
  rewrite (foldl_initTimeFrame_lookup _ _ _ _ _ timeFrames_NoDup), lookup_empty.
  case_decide as Htf; [|done].
  rewrite interval_of_timeFrame by done. by destruct (client symbol tf maxKlines).
Qed.

(** Once both callers have returned, the run amounts to one call of
    [InitSymbol] by the caller that fetched, followed by one of the other. *)
Lemma both_returned symbol maxKlines client (kc : KlineCache) st err1 err2 :
  kc !! symbol = None ->
  systemOk symbol maxKlines st -> cacheOk symbol maxKlines client kc st ->
  at_ (sys_first st) = Returned err1 -> at_ (sys_second st) = Returned err2 ->
  exists winner mtk,
    fetches (goroutineOf st winner) = fullFetch symbol (maxKlines winner)
    /\ fetches (goroutineOf st (other winner)) = []
    /\ sys_cache st = fst (InitSymbol client symbol (maxKlines winner) kc)
    /\ at_ (goroutineOf st winner)
       = Returned (snd (InitSymbol client symbol (maxKlines winner) kc))
    /\ InitSymbol client symbol (maxKlines (other winner)) (sys_cache st)
       = (sys_cache st, None)
    /\ at_ (goroutineOf st (other winner)) = Returned None
    /\ sys_cache st !! symbol = Some mtk /\ Symbol mtk = symbol
    /\ (forall tf : string,
          Data mtk !! tf
          = if decide (tf ∈ timeFrames)
            then client symbol tf (maxKlines winner) else None)
    /\ (forall symbol' : string,
          symbol' <> symbol -> sys_cache st !! symbol' = kc !! symbol').
Proof.
  intros Hkc (Hg & _ & Hsome) (_ & Hcache) Hret1 Hret2.
  pose proof (Hg First) as H1. pose proof (Hg Second) as H2.
  unfold goroutineOk in H1, H2. cbn [goroutineOf] in H1, H2.
  rewrite Hret1 in H1. rewrite Hret2 in H2.
  destruct H1 as (-> & _ & Hin & _), H2 as (-> & _ & _ & _).
  destruct Hin as [record Hrecord]. rewrite Hrecord in Hcache.
  destruct Hcache as (winner & Hfetched & Heq).
  destruct (InitSymbol_record client symbol (maxKlines winner) kc Hkc)
    as (mtk & Hmtk & Hsymbol & Hdata).
  assert (Hwho : fetches (goroutineOf st winner) = fullFetch symbol (maxKlines winner)
                 /\ fetches (goroutineOf st (other winner)) = []).
  { destruct (Hsome (ex_intro _ record Hrecord)) as [[Ha Hb]|[Ha Hb]], winner;
      cbn [goroutineOf other] in *; done. }
  assert (Hnil : snd (InitSymbol client symbol (maxKlines winner) kc) = None).
  { unfold InitSymbol. by rewrite Hkc. }
  exists winner, mtk. rewrite Hnil, Heq.
  split; [apply Hwho|]. split; [apply Hwho|]. split; [done|].
  split; [by destruct winner|].
  split; [unfold InitSymbol at 1; by rewrite Hmtk|].
  split; [by destruct winner|].
  split; [done|]. split; [done|]. split; [done|].
  intros symbol' Hne. unfold InitSymbol. rewrite Hkc. cbn [fst].
  by rewrite lookup_insert_ne.
Qed.

(** C10.  Two callers enter [InitSymbol] for a symbol the cache does not
    know, and their statements interleave under any schedule.  When both
    have returned, both returned nil, the cache holds a record for the
    symbol, and exactly one caller made the six provider calls of the loop,
    in the order of the timeframes, while the other made none and found the
    record at its check.  While the provider answers as [client] does, the
    run amounts to one call of [InitSymbol] by the caller that fetched,
    followed by one of the other: the cache is the one that call of the
    function returns, the installed record holds for each of the six
    timeframes what the provider answered to the request of that caller, the
    other records are untouched, and the call of the other caller changes
    nothing.  And every schedule can be continued so that both callers
    return. *)
Theorem InitSymbol_concurrent symbol maxKlines (kc : KlineCache) schedule :
  kc !! symbol = None ->
  let st := run symbol maxKlines schedule (initial kc) in
  (forall err1 err2,
     at_ (sys_first st) = Returned err1 -> at_ (sys_second st) = Returned err2 ->
     err1 = None /\ err2 = None /\ is_Some (sys_cache st !! symbol)
     /\ ((fetches (sys_first st) = fullFetch symbol (maxKlines First)
          /\ found (sys_first st) = false
          /\ fetches (sys_second st) = [] /\ found (sys_second st) = true)
         \/ (fetches (sys_first st) = [] /\ found (sys_first st) = true
             /\ fetches (sys_second st) = fullFetch symbol (maxKlines Second)
             /\ found (sys_second st) = false)))
  /\ (forall (client : APIClient) err1 err2,
        Forall (answersAs symbol maxKlines client) schedule ->
        at_ (sys_first st) = Returned err1 -> at_ (sys_second st) = Returned err2 ->
        exists winner mtk,
          fetches (goroutineOf st winner) = fullFetch symbol (maxKlines winner)
          /\ fetches (goroutineOf st (other winner)) = []
          /\ sys_cache st = fst (InitSymbol client symbol (maxKlines winner) kc)
          /\ at_ (goroutineOf st winner)
             = Returned (snd (InitSymbol client symbol (maxKlines winner) kc))
          /\ InitSymbol client symbol (maxKlines (other winner)) (sys_cache st)
             = (sys_cache st, None)
          /\ at_ (goroutineOf st (other winner)) = Returned None
          /\ sys_cache st !! symbol = Some mtk /\ Symbol mtk = symbol
          /\ (forall tf : string,
                Data mtk !! tf
                = if decide (tf ∈ timeFrames)
                  then client symbol tf (maxKlines winner) else None)
          /\ (forall symbol' : string,
                symbol' <> symbol -> sys_cache st !! symbol' = kc !! symbol'))
  /\ (forall client : APIClient, exists more,
        let st' := run symbol maxKlines (schedule ++ more) (initial kc) in
        at_ (sys_first st') = Returned None /\ at_ (sys_second st') = Returned None).
Proof.
  intros Hkc. cbv zeta.
  pose proof (run_ok symbol maxKlines schedule _ (initial_ok symbol maxKlines kc Hkc))
    as Hok.
  split; [|split].
  - revert Hok. generalize (run symbol maxKlines schedule (initial kc)).
    intros st (Hg & _ & Hsome) err1 err2 Hret1 Hret2.
    pose proof (Hg First) as H1. pose proof (Hg Second) as H2.
    unfold goroutineOk in H1, H2. cbn [goroutineOf] in H1, H2.
    rewrite Hret1 in H1. rewrite Hret2 in H2.
    destruct H1 as (-> & _ & Hin & Hf1), H2 as (-> & _ & _ & Hf2).
    split; [reflexivity|]. split; [reflexivity|]. split; [exact Hin|].
    pose proof (fullFetch_nonempty symbol (maxKlines First)).
    pose proof (fullFetch_nonempty symbol (maxKlines Second)).
    destruct (Hsome Hin) as [[Ha Hb]|[Ha Hb]]; [left|right];
      destruct Hf1 as [[? ?]|[? ?]], Hf2 as [[? ?]|[? ?]]; repeat split; congruence.
  - intros client err1 err2 Hans.
    pose proof (run_cacheOk symbol maxKlines client kc schedule _
                  (initial_ok symbol maxKlines kc Hkc)
                  (initial_cacheOk symbol maxKlines client kc Hkc) Hans) as Hcache.
    revert Hok Hcache. generalize (run symbol maxKlines schedule (initial kc)).
    intros st Hok Hcache Hret1 Hret2.
    exact (both_returned symbol maxKlines client kc st err1 err2 Hkc Hok Hcache
             Hret1 Hret2).
  - intros client.
    exists (replicate 10 (First, client) ++ replicate 10 (Second, client)
            ++ replicate 10 (First, client)).
    rewrite run_app.
    exact (both_return symbol maxKlines client _ Hok).
Qed.

Lemma InitSymbol_concurrent_witness :
  let st := run "BTCUSDT" (fun _ => 20%Z) interleaved (initial ∅) in
  at_ (sys_first st) = Returned None /\ at_ (sys_second st) = Returned None
  /\ fetches (sys_first st) = fullFetch "BTCUSDT" 20
  /\ fetches (sys_second st) = [] /\ found (sys_second st) = true
  /\ sys_cache st = fst (InitSymbol (client_of "5m" [k1; k2]) "BTCUSDT" 20 ∅)
  /\ exists mtk, sys_cache st !! "BTCUSDT" = Some mtk
                 /\ Data mtk !! "5m" = Some [k1; k2] /\ Data mtk !! "1h" = None.
Proof.
  cbv zeta.
  assert (Hret1 : at_ (sys_first (run "BTCUSDT" (fun _ => 20%Z) interleaved (initial ∅)))
                  = Returned None) by (vm_compute; reflexivity).
  assert (Hret2 : at_ (sys_second (run "BTCUSDT" (fun _ => 20%Z) interleaved (initial ∅)))
                  = Returned None) by (vm_compute; reflexivity).
  assert (Hans : Forall (answersAs "BTCUSDT" (fun _ => 20%Z) (client_of "5m" [k1; k2]))
                   interleaved).
  { unfold interleaved. cbv zeta.
    repeat (constructor; [intros interval; reflexivity|]). constructor. }
  pose proof (InitSymbol_concurrent "BTCUSDT" (fun _ => 20%Z) ∅ interleaved
                (lookup_empty "BTCUSDT")) as (Hsafe & Hrecord & _).
  destruct (Hsafe None None Hret1 Hret2)
    as (_ & _ & _ & [(Hf1 & _ & Hf2 & Hb2)|(Hf1 & _)]);
    [|vm_compute in Hf1; discriminate Hf1].
  destruct (Hrecord (client_of "5m" [k1; k2]) None None Hans Hret1 Hret2)
    as (winner & mtk & _ & _ & Hcache & _ & _ & _ & Hmtk & _ & Hdata & _).
  split; [assumption|]. split; [assumption|]. split; [assumption|].
  split; [assumption|]. split; [assumption|]. split; [exact Hcache|].
  exists mtk. split; [exact Hmtk|]. split.
  - rewrite (Hdata "5m"%string). reflexivity.
  - rewrite (Hdata "1h"%string). reflexivity.
Defined.

(** * Further properties of the cache *)

(** ** [InitSymbol] *)

(** X1.  A second [InitSymbol] for the same symbol changes nothing and
    returns nil, whatever the provider would answer and whatever number of
    candles it asks for: an initialized symbol is not fetched again. *)
Theorem InitSymbol_twice client1 client2 symbol maxKlines1 maxKlines2 (kc : KlineCache) :
  InitSymbol client2 symbol maxKlines2 (fst (InitSymbol client1 symbol maxKlines1 kc))
  = (fst (InitSymbol client1 symbol maxKlines1 kc), None).
Proof.
  unfold InitSymbol at 2 3.
  destruct (kc !! symbol) as [mtk|] eqn:Hs; cbn [fst].
  - unfold InitSymbol. by rewrite Hs.
  - unfold InitSymbol. by rewrite lookup_insert_eq.
Qed.

(** X2.  [InitSymbol] for an unknown symbol installs a record that carries
    the symbol and holds, for each of the six timeframes, exactly the
    candles the provider returned for it; a timeframe whose fetch failed is
    absent, and so is every other timeframe. *)
Theorem InitSymbol_stores_responses client symbol maxKlines (kc : KlineCache) (tf : string) :
  kc !! symbol = None ->
  exists mtk,
    fst (InitSymbol client symbol maxKlines kc) !! symbol = Some mtk
    /\ Symbol mtk = symbol
    /\ Data mtk !! tf
       = if decide (tf ∈ timeFrames) then client symbol tf maxKlines else None.
Proof.
  intros Hs. unfold InitSymbol. rewrite Hs. cbn [fst].
  eexists. split; [apply lookup_insert_eq|]. split; [done|]. cbn [Data].
  rewrite (foldl_initTimeFrame_lookup _ _ _ _ _ timeFrames_NoDup), lookup_empty.
  case_decide as Htf; [|done].
  rewrite interval_of_timeFrame by done. by destruct (client symbol tf maxKlines).
Qed.

Lemma InitSymbol_stores_responses_witness :
  exists mtk,
    fst (InitSymbol (client_of "5m" [k1; k2]) "BTCUSDT" 20 ∅) !! "BTCUSDT" = Some mtk
    /\ Symbol mtk = "BTCUSDT"%string
    /\ Data mtk !! "1h"
       = if decide ("1h"%string ∈ timeFrames)
         then client_of "5m" [k1; k2] "BTCUSDT" "1h" 20%Z else None.
Proof.
  apply (InitSymbol_stores_responses (client_of "5m" [k1; k2]) "BTCUSDT" 20 ∅ "1h").
  reflexivity.
Defined.

(** X3.  [InitSymbol] never fails and keeps every record the cache already
    holds, the one of its own symbol included. *)
Theorem InitSymbol_keeps_records client symbol maxKlines (kc : KlineCache) :
  snd (InitSymbol client symbol maxKlines kc) = None
  /\ forall symbol' mtk,
       kc !! symbol' = Some mtk ->
       fst (InitSymbol client symbol maxKlines kc) !! symbol' = Some mtk.
Proof.
  unfold InitSymbol. destruct (kc !! symbol) as [old|] eqn:Hs; cbn [fst snd].
  - done.
  - split; [done|]. intros symbol' mtk Hs'.
    rewrite lookup_insert_ne; [done|]. intros ->. congruence.
Qed.

Lemma InitSymbol_keeps_records_witness :
  fst (InitSymbol (client_of "5m" [k3]) "ETHUSDT" 20 (cache_of "BTCUSDT" "5m" [k1; k2]))
    !! "BTCUSDT"
  = Some {| Symbol := "BTCUSDT"; Data := {[ "5m" := [k1; k2] ]} |}.
Proof.
  apply (proj2 (InitSymbol_keeps_records (client_of "5m" [k3]) "ETHUSDT" 20
                  (cache_of "BTCUSDT" "5m" [k1; k2]))).
  reflexivity.
Defined.

(** ** [UpdateSymbol] *)

(** X4.  [UpdateSymbol] fails exactly when the symbol has no record, with
    the not-initialized error, and then leaves the cache as it was; in no
    case does it add or remove a symbol. *)
Theorem UpdateSymbol_error client symbol (kc : KlineCache) :
  (snd (UpdateSymbol client symbol kc) = Some (ErrSymbolNotInitialized symbol)
     <-> kc !! symbol = None)
  /\ (snd (UpdateSymbol client symbol kc) = None <-> is_Some (kc !! symbol))
  /\ (kc !! symbol = None -> fst (UpdateSymbol client symbol kc) = kc)
  /\ dom (fst (UpdateSymbol client symbol kc)) = dom kc.
Proof.
  unfold UpdateSymbol. destruct (kc !! symbol) as [mtk|] eqn:Hs; cbn [fst snd].
  - split; [done|]. split; [by split; eauto|]. split; [done|].
    rewrite dom_insert_L. apply elem_of_dom_2 in Hs. set_solver.
  - split; [done|]. split; [|done]. split; [done|by intros [? ?]].
Qed.

Lemma UpdateSymbol_error_witness :
  fst (UpdateSymbol (client_of "5m" [k1]) "ETHUSDT" (cache_of "BTCUSDT" "5m" [k1]))
  = cache_of "BTCUSDT" "5m" [k1].
Proof.
  apply (proj1 (proj2 (proj2 (UpdateSymbol_error (client_of "5m" [k1]) "ETHUSDT"
                                (cache_of "BTCUSDT" "5m" [k1]))))).
  reflexivity.
Defined.

Lemma mergeSeries_keeps fetched stored :
  exists klines,
    mergeSeries fetched (Some stored) = Some klines
    /\ (stored <> [] -> klines <> []).
Proof.
  destruct fetched as [response|]; [|by exists stored].
  destruct (last response) as [lastNew|] eqn:Hn;
    [|exists stored; unfold mergeSeries; by rewrite Hn].
  destruct (mergeSeries_last response (Some stored) lastNew Hn) as (klines & Hm & Hl & _).
  exists klines. split; [done|]. intros _ ->. done.
Qed.

(** X5.  [UpdateSymbol] leaves the records of the other symbols as they
    are, and in the record of its own symbol it keeps the symbol name and
    every series of a timeframe outside the six of its loop. *)
Theorem UpdateSymbol_frame client symbol (kc : KlineCache) symbol' mtk :
  kc !! symbol' = Some mtk ->
  exists mtk',
    fst (UpdateSymbol client symbol kc) !! symbol' = Some mtk'
    /\ Symbol mtk' = Symbol mtk
    /\ (symbol' <> symbol -> mtk' = mtk)
    /\ (forall tf : string, tf ∉ timeFrames -> Data mtk' !! tf = Data mtk !! tf).
Proof.
  intros Hs'. destruct (decide (symbol = symbol')) as [->|Hne].
  - unfold UpdateSymbol. rewrite Hs'. cbn [fst].
    eexists. split; [apply lookup_insert_eq|]. split; [done|]. split; [done|].
    intros tf Htf. cbn [Data].
    rewrite (foldl_updateTimeFrame_lookup _ _ _ _ timeFrames_NoDup).
    by rewrite decide_False.
  - exists mtk. rewrite UpdateSymbol_other_symbol by done. done.
Qed.

Lemma UpdateSymbol_frame_witness :
  exists mtk',
    fst (UpdateSymbol (client_of "5m" [k2]) "BTCUSDT" (cache_of "BTCUSDT" "2h" [k1]))
      !! "BTCUSDT" = Some mtk'
    /\ Symbol mtk' = "BTCUSDT"%string
    /\ ("BTCUSDT"%string <> "BTCUSDT"%string
        -> mtk' = {| Symbol := "BTCUSDT"; Data := {[ "2h" := [k1] ]} |})
    /\ (forall tf : string, tf ∉ timeFrames ->
          Data mtk' !! tf = ({[ "2h" := [k1] ]} : gmap string (list Kline)) !! tf).
Proof.
  exact (UpdateSymbol_frame (client_of "5m" [k2]) "BTCUSDT"
           (cache_of "BTCUSDT" "2h" [k1]) "BTCUSDT"
           {| Symbol := "BTCUSDT"; Data := {[ "2h" := [k1] ]} |} eq_refl).
Defined.

(** X6.  While the provider fails, or returns no candle, for each of the
    six timeframes, [UpdateSymbol] leaves the whole cache as it was. *)
Theorem UpdateSymbol_outage client symbol (kc : KlineCache) :
  (forall tf : string, tf ∈ timeFrames ->
     client symbol tf 2%Z = None \/ client symbol tf 2%Z = Some []) ->
  fst (UpdateSymbol client symbol kc) = kc.
Proof.
  intros Hout. unfold UpdateSymbol.
  destruct (kc !! symbol) as [mtk|] eqn:Hs; cbn [fst]; [|done].
  assert (Hdata : foldl (updateTimeFrame client symbol) (Data mtk) timeFrames = Data mtk).
  { apply map_eq. intros tf.
    rewrite (foldl_updateTimeFrame_lookup _ _ _ _ timeFrames_NoDup).
    case_decide as Htf; [|done].
    rewrite interval_of_timeFrame by done.
    by destruct (Hout tf Htf) as [-> | ->]. }
  rewrite Hdata. destruct mtk as [sym data]. by apply insert_id.
Qed.

Lemma UpdateSymbol_outage_witness :
  fst (UpdateSymbol (fun _ _ _ => None) "BTCUSDT" (cache_of "BTCUSDT" "5m" [k1; k2]))
  = cache_of "BTCUSDT" "5m" [k1; k2].
Proof.
  apply (UpdateSymbol_outage (fun _ _ _ => None) "BTCUSDT"
           (cache_of "BTCUSDT" "5m" [k1; k2])).
  intros tf _. by left.
Defined.

(** X7.  The forming candle: when the latest fetched candle is not newer
    than the stored latest one, and the series is within [maxKeep] candles,
    [UpdateSymbol] replaces the stored latest candle by the fetched one and
    leaves the older candles and the length of the series as they were. *)
Theorem UpdateSymbol_forming_overwrite client symbol (kc : KlineCache) mtk (tf : string)
    older lastExisting response lastNew :
  kc !! symbol = Some mtk -> tf ∈ timeFrames ->
  Data mtk !! tf = Some (older ++ [lastExisting]) ->
  client symbol tf 2%Z = Some response -> last response = Some lastNew ->
  (OpenTime lastNew <= OpenTime lastExisting)%Z ->
  length older < maxKeep ->
  exists mtk',
    fst (UpdateSymbol client symbol kc) !! symbol = Some mtk'
    /\ Data mtk' !! tf = Some (older ++ [lastNew]).
Proof.
  intros Hs Htf Hstored Hresp Hln Hle Hlen.
  destruct (UpdateSymbol_series client symbol kc mtk tf Hs Htf) as (mtk' & Hs' & Hd).
  exists mtk'. split; [done|].
  rewrite Hd, Hstored, Hresp.
  rewrite (mergeSeries_same_period _ _ lastExisting lastNew);
    [|apply last_snoc|done|done].
  f_equal. rewrite length_app. simpl.
  replace (length older + 1 - 1) with (length older + 0) by lia.
  rewrite insert_app_r. simpl.
  apply keepLatest_id. rewrite length_app. simpl. lia.
Qed.

Lemma UpdateSymbol_forming_overwrite_witness :
  exists mtk',
    fst (UpdateSymbol (client_of "5m" [k1; k2]) "BTCUSDT"
           (cache_of "BTCUSDT" "5m" [k1; k3])) !! "BTCUSDT" = Some mtk'
    /\ Data mtk' !! "5m" = Some ([k1] ++ [k2]).
Proof.
  apply (UpdateSymbol_forming_overwrite (client_of "5m" [k1; k2]) "BTCUSDT"
           (cache_of "BTCUSDT" "5m" [k1; k3])
           {| Symbol := "BTCUSDT"; Data := {[ "5m" := [k1; k3] ]} |}
           "5m" [k1] k3 [k1; k2] k2).
  - reflexivity.
  - unfold timeFrames. left.
  - reflexivity.
  - reflexivity.
  - reflexivity.
  - simpl. lia.
  - unfold maxKeep. simpl. lia.
Defined.

(** X8.  After an [UpdateSymbol] whose fetch for one of the six timeframes
    returned candles, the latest candle of that timeframe is the latest
    fetched one, whatever the cache held before. *)
Theorem UpdateSymbol_latest_is_fetched client symbol (kc : KlineCache) mtk (tf : string)
    response lastNew :
  kc !! symbol = Some mtk -> tf ∈ timeFrames ->
  client symbol tf 2%Z = Some response -> last response = Some lastNew ->
  GetLatestKline (fst (UpdateSymbol client symbol kc)) symbol tf = Ok lastNew.
Proof.
  intros Hs Htf Hresp Hln.
  destruct (UpdateSymbol_series client symbol kc mtk tf Hs Htf) as (mtk' & Hs' & Hd).
  rewrite Hresp in Hd.
  destruct (mergeSeries_last response (Data mtk !! tf) lastNew Hln)
    as (klines & Hm & Hl & _).
  rewrite Hm in Hd.
  by rewrite (GetLatestKline_stored _ symbol tf mtk' klines), Hl.
Qed.

Lemma UpdateSymbol_latest_is_fetched_witness :
  GetLatestKline
    (fst (UpdateSymbol (client_of "1h" [k2; k3]) "BTCUSDT" (cache_of "BTCUSDT" "5m" [k1])))
    "BTCUSDT" "1h" = Ok k3.
Proof.
  apply (UpdateSymbol_latest_is_fetched (client_of "1h" [k2; k3]) "BTCUSDT"
           (cache_of "BTCUSDT" "5m" [k1])
           {| Symbol := "BTCUSDT"; Data := {[ "5m" := [k1] ]} |} "1h" [k2; k3] k3).
  - reflexivity.
  - unfold timeFrames. do 3 right. left.
  - reflexivity.
  - reflexivity.
Defined.

(** X9.  A series into which [UpdateSymbol] merged a response holds at most
    [maxKeep] candles afterwards, however long it was: a series that
    [InitSymbol] loaded with more is cut down by its first merge. *)
Theorem UpdateSymbol_merged_length client symbol (kc : KlineCache) mtk (tf : string)
    stored response :
  kc !! symbol = Some mtk -> tf ∈ timeFrames ->
  Data mtk !! tf = Some stored -> stored <> [] ->
  client symbol tf 2%Z = Some response -> response <> [] ->
  exists mtk' klines,
    fst (UpdateSymbol client symbol kc) !! symbol = Some mtk'
    /\ Data mtk' !! tf = Some klines
    /\ length klines <= maxKeep.
Proof.
  intros Hs Htf Hstored Hne Hresp Hrne.
  destruct (UpdateSymbol_series client symbol kc mtk tf Hs Htf) as (mtk' & Hs' & Hd).
  rewrite Hresp, Hstored in Hd. unfold mergeSeries in Hd. simpl in Hd.
  destruct (last response) as [lastNew|] eqn:Hln; [|by apply last_None in Hln].
  destruct (last stored) as [lastExisting|] eqn:Hle; [|by apply last_None in Hle].
  eexists mtk', _. split; [done|]. split; [done|]. apply keepLatest_length.
Qed.

Lemma UpdateSymbol_merged_length_witness :
  exists mtk' klines,
    fst (UpdateSymbol (client_of "5m" [k1]) "BTCUSDT"
           (cache_of "BTCUSDT" "5m" (series 25))) !! "BTCUSDT" = Some mtk'
    /\ Data mtk' !! "5m" = Some klines
    /\ length klines <= maxKeep.
Proof.
  apply (UpdateSymbol_merged_length (client_of "5m" [k1]) "BTCUSDT"
           (cache_of "BTCUSDT" "5m" (series 25))
           {| Symbol := "BTCUSDT"; Data := {[ "5m" := series 25 ]} |}
           "5m" (series 25) [k1]).
  - reflexivity.
  - unfold timeFrames. left.
  - reflexivity.
  - discriminate.
  - reflexivity.
  - discriminate.
Defined.

(** X10.  [UpdateSymbol] never drops a series and never empties one: a
    timeframe that had a series still has one, and it holds a candle if it
    held one before. *)
Theorem UpdateSymbol_keeps_series client symbol (kc : KlineCache) mtk (tf : string) stored :
  kc !! symbol = Some mtk -> Data mtk !! tf = Some stored ->
  exists mtk' klines,
    fst (UpdateSymbol client symbol kc) !! symbol = Some mtk'
    /\ Data mtk' !! tf = Some klines
    /\ (stored <> [] -> klines <> []).
Proof.
  intros Hs Hstored.
  destruct (decide (tf ∈ timeFrames)) as [Htf|Htf].
  - destruct (UpdateSymbol_series client symbol kc mtk tf Hs Htf) as (mtk' & Hs' & Hd).
    destruct (mergeSeries_keeps (client symbol tf 2%Z) stored) as (klines & Hm & Hne).
    exists mtk', klines. by rewrite Hd, Hstored.
  - destruct (UpdateSymbol_other_timeFrame client symbol kc mtk tf Hs Htf)
      as (mtk' & Hs' & Hd).
    exists mtk', stored. by rewrite Hd.
Qed.

Lemma UpdateSymbol_keeps_series_witness :
  exists mtk' klines,
    fst (UpdateSymbol (client_of "5m" [k1]) "BTCUSDT"
           (cache_of "BTCUSDT" "5m" [k2; k3])) !! "BTCUSDT" = Some mtk'
    /\ Data mtk' !! "5m" = Some klines
    /\ ([k2; k3] <> [] -> klines <> []).
Proof.
  apply (UpdateSymbol_keeps_series (client_of "5m" [k1]) "BTCUSDT"
           (cache_of "BTCUSDT" "5m" [k2; k3])
           {| Symbol := "BTCUSDT"; Data := {[ "5m" := [k2; k3] ]} |} "5m" [k2; k3]);
    reflexivity.
Defined.

(** ** The cache over a sequence of writes *)

Lemma runCall_initialized (kc : KlineCache) (c : call) (symbol : string) :
  is_Some (runCall kc c !! symbol)
  <-> is_Some (kc !! symbol) \/ (isInit c = true /\ callSymbol c = symbol).
Proof.
  destruct c as [client sym maxKlines|client sym]; cbn [runCall isInit callSymbol].
  - unfold InitSymbol. destruct (kc !! sym) as [old|] eqn:Hsym; cbn [fst].
    + split; [by left|]. intros [H|[_ <-]]; [done|by rewrite Hsym].
    + destruct (decide (sym = symbol)) as [->|Hne].
      * rewrite lookup_insert_eq. split; [by right|by eauto].
      * rewrite lookup_insert_ne by done. split; [by left|]. by intros [H|[_ H]].
  - unfold UpdateSymbol. destruct (kc !! sym) as [old|] eqn:Hsym; cbn [fst].
    + destruct (decide (sym = symbol)) as [->|Hne].
      * rewrite lookup_insert_eq, Hsym. split; [by left|by eauto].
      * rewrite lookup_insert_ne by done. split; [by left|]. by intros [H|[H _]].
    + split; [by left|]. by intros [H|[H _]].
Qed.

(** X11.  A symbol has a record after a sequence of [InitSymbol] and
    [UpdateSymbol] calls exactly when it had one before or one of the calls
    is an [InitSymbol] for it: records are created by initialization only,
    and never removed. *)
Theorem runCalls_initialized (calls : list call) (kc : KlineCache) (symbol : string) :
  is_Some (runCalls kc calls !! symbol)
  <-> is_Some (kc !! symbol)
      \/ Exists (fun c => isInit c = true /\ callSymbol c = symbol) calls.
Proof.
  revert kc. induction calls as [|c calls IH]; intros kc; cbn [runCalls foldl].
  - rewrite Exists_nil. tauto.
  - fold (runCalls (runCall kc c) calls). rewrite IH, runCall_initialized, Exists_cons.
    tauto.
Qed.

Lemma runCall_wellformed (kc : KlineCache) (c : call) :
  (forall symbol mtk, kc !! symbol = Some mtk ->
     Symbol mtk = symbol
     /\ forall tf : string, is_Some (Data mtk !! tf) -> tf ∈ timeFrames) ->
  forall symbol mtk, runCall kc c !! symbol = Some mtk ->
    Symbol mtk = symbol
    /\ forall tf : string, is_Some (Data mtk !! tf) -> tf ∈ timeFrames.
Proof.
  intros Hinv symbol mtk.
  destruct c as [client sym maxKlines|client sym]; cbn [runCall].
  - unfold InitSymbol. destruct (kc !! sym) as [old|] eqn:Hsym; cbn [fst];
      [apply Hinv|].
    destruct (decide (sym = symbol)) as [->|Hne].
    + rewrite lookup_insert_eq. intros Hm. apply (inj Some) in Hm as <-.
      split; [done|]. intros tf. cbn [Data].
      rewrite (foldl_initTimeFrame_lookup _ _ _ _ _ timeFrames_NoDup), lookup_empty.
      case_decide; [done|]. by intros [? ?].
    + rewrite lookup_insert_ne by done. apply Hinv.
  - unfold UpdateSymbol. destruct (kc !! sym) as [old|] eqn:Hsym; cbn [fst];
      [|apply Hinv].
    destruct (decide (sym = symbol)) as [->|Hne].
    + rewrite lookup_insert_eq. intros Hm. apply (inj Some) in Hm as <-.
      destruct (Hinv symbol old Hsym) as [Hsymbol Hkeys].
      split; [done|]. intros tf. cbn [Data].
      rewrite (foldl_updateTimeFrame_lookup _ _ _ _ timeFrames_NoDup).
      case_decide; [done|]. apply Hkeys.
    + rewrite lookup_insert_ne by done. apply Hinv.
Qed.

(** X12.  In a cache built from the empty one by [InitSymbol] and
    [UpdateSymbol] calls, every record carries the symbol it is stored
    under, and holds series for the six declared timeframes only. *)
Theorem runCalls_wellformed (calls : list call) symbol mtk :
  runCalls ∅ calls !! symbol = Some mtk ->
  Symbol mtk = symbol
  /\ forall tf : string, is_Some (Data mtk !! tf) -> tf ∈ timeFrames.
Proof.
  assert (Hgen : forall kc : KlineCache,
            (forall symbol mtk, kc !! symbol = Some mtk ->
               Symbol mtk = symbol
               /\ forall tf : string, is_Some (Data mtk !! tf) -> tf ∈ timeFrames) ->
            forall symbol mtk, runCalls kc calls !! symbol = Some mtk ->
              Symbol mtk = symbol
              /\ forall tf : string, is_Some (Data mtk !! tf) -> tf ∈ timeFrames).
  { induction calls as [|c calls IH]; intros kc Hinv; [done|].
    cbn [runCalls foldl]. apply IH. by apply runCall_wellformed. }
  apply Hgen. intros ? ? Hempty. by rewrite lookup_empty in Hempty.
Qed.

Lemma runCalls_wellformed_witness :
  Symbol {| Symbol := "BTCUSDT"; Data := {[ "5m" := [k1; k2] ]} |} = "BTCUSDT"%string
  /\ forall tf : string,
       is_Some (Data {| Symbol := "BTCUSDT"; Data := {[ "5m" := [k1; k2] ]} |} !! tf) ->
       tf ∈ timeFrames.
Proof.
  apply (runCalls_wellformed
           [CallInitSymbol (client_of "5m" [k1]) "BTCUSDT" 20;
            CallUpdateSymbol (client_of "5m" [k2]) "BTCUSDT"]
           "BTCUSDT" {| Symbol := "BTCUSDT"; Data := {[ "5m" := [k1; k2] ]} |}).
  reflexivity.
Defined.

(** ** Reading the latest candles *)

(** X13.  [GetLatestKline] and [GetLatestTwoKlines] agree: when the latter
    returns candles, the former returns the last of them; when it returns an
    empty slice, the former fails with the no-data error; when it fails, the
    former fails with the same error.  Neither panics. *)
Theorem GetLatestKline_of_two (kc : KlineCache) symbol tf :
  match GetLatestTwoKlines kc symbol tf with
  | Ok klines =>
      GetLatestKline kc symbol tf
      = match last klines with Some kline => Ok kline | None => Err ErrNoKlines end
  | Err e => GetLatestKline kc symbol tf = Err e
  | Panic => False
  end.
Proof.
  destruct (kc !! symbol) as [mtk|] eqn:Hs;
    [|unfold GetLatestTwoKlines, GetLatestKline, GetKlines; by rewrite Hs].
  destruct (Data mtk !! tf) as [klines|] eqn:Ht;
    [|unfold GetLatestTwoKlines, GetLatestKline, GetKlines; by rewrite Hs, Ht].
  unfold GetLatestTwoKlines.
  rewrite (GetKlines_stored kc symbol tf 2 mtk klines) by (done || lia).
  rewrite (GetLatestKline_stored kc symbol tf mtk klines) by done.
  destruct klines as [|kline klines]; [done|].
  rewrite last_drop_lt; [done|]. simpl. lia.
Qed.

(** X14.  The results of [GetKlines] nest: for limits [0 <= a <= b] the
    candles returned for [a] are the last candles of those returned for
    [b], and a limit of at least the stored length returns the whole
    series. *)
Theorem GetKlines_nest (kc : KlineCache) symbol tf (a b : Z) mtk klines :
  kc !! symbol = Some mtk -> Data mtk !! tf = Some klines ->
  (0 <= a <= b)%Z ->
  exists ra rb,
    GetKlines kc symbol tf a = Ok ra /\ GetKlines kc symbol tf b = Ok rb
    /\ ra = drop (length rb - Z.to_nat a) rb
    /\ ((Z.of_nat (length klines) <= b)%Z -> rb = klines).
Proof.
  intros Hs Ht Hab.
  rewrite (GetKlines_stored kc symbol tf a mtk klines),
          (GetKlines_stored kc symbol tf b mtk klines) by (done || lia).
  eexists _, _. split; [done|]. split; [done|]. split.
  - rewrite drop_drop, length_drop. f_equal. lia.
  - intros Hlen. by replace (length klines - Z.to_nat b) with 0 by lia.
Qed.

Lemma GetKlines_nest_witness :
  exists ra rb,
    GetKlines (cache_of "BTCUSDT" "5m" [k1; k2; k3]) "BTCUSDT" "5m" 1 = Ok ra
    /\ GetKlines (cache_of "BTCUSDT" "5m" [k1; k2; k3]) "BTCUSDT" "5m" 2 = Ok rb
    /\ ra = drop (length rb - Z.to_nat 1) rb
    /\ ((Z.of_nat (length [k1; k2; k3]) <= 2)%Z -> rb = [k1; k2; k3]).
Proof.
  apply (GetKlines_nest (cache_of "BTCUSDT" "5m" [k1; k2; k3]) "BTCUSDT" "5m" 1 2
           {| Symbol := "BTCUSDT"; Data := {[ "5m" := [k1; k2; k3] ]} |} [k1; k2; k3]).
  - reflexivity.
  - reflexivity.
  - lia.
Defined.

(** * Further properties of the detector *)

(** ** Comparisons of binary64 numbers *)

Lemma SFcompare_antisym (x y : spec_float) :
  SFcompare y x = option_map CompOpp (SFcompare x y).
Proof.
  destruct x as [sx|sx| |sx mx ex], y as [sy|sy| |sy my ey]; cbn [SFcompare option_map];
    try done; try (by destruct sx); try (by destruct sy); try (by destruct sx, sy).
  f_equal. destruct sx, sy; try done.
  - rewrite (Z.compare_antisym ex ey).
    destruct (ex ?= ey)%Z; cbn [CompOpp]; try done.
    fold (Pos.compare my mx). fold (Pos.compare mx my).
    rewrite (Pos.compare_antisym mx my). by destruct (mx ?= my)%positive.
  - rewrite (Z.compare_antisym ex ey).
    destruct (ex ?= ey)%Z; cbn [CompOpp]; try done.
    fold (Pos.compare my mx). fold (Pos.compare mx my).
    rewrite (Pos.compare_antisym mx my). by destruct (mx ?= my)%positive.
Qed.

Lemma ltb_asym (x y : float) : (x <? y)%float = true -> (y <? x)%float = false.
Proof.
  rewrite !FloatAxioms.ltb_spec. unfold SFltb.
  rewrite (SFcompare_antisym (Prim2SF x) (Prim2SF y)).
  by destruct (SFcompare (Prim2SF x) (Prim2SF y)) as [[]|].
Qed.

Lemma ltb_nan_r (x y : float) : Prim2SF y = S754_nan -> (x <? y)%float = false.
Proof.
  intros H. rewrite FloatAxioms.ltb_spec, H. unfold SFltb.
  by destruct (Prim2SF x).
Qed.

Lemma mul_nan_l (x y : float) : Prim2SF x = S754_nan -> Prim2SF (x * y) = S754_nan.
Proof. intros H. rewrite FloatAxioms.mul_spec, H. reflexivity. Qed.

Lemma SFcompare_le_trans (x y z : spec_float) :
  SFleb x y = true -> SFleb y z = true -> SFleb x z = true.
Proof.
  unfold SFleb.
  destruct x as [sx|sx| |sx mx ex], y as [sy|sy| |sy my ey], z as [sz|sz| |sz mz ez];
    cbn [SFcompare]; try done;
    try (by destruct sx); try (by destruct sy); try (by destruct sz);
    try (by destruct sx, sy); try (by destruct sy, sz); try (by destruct sx, sz);
    try (by destruct sx, sy, sz).
  - destruct sx, sy, sz; try done.
    all: destruct (Z.compare_spec ex ey), (Z.compare_spec ey ez), (Z.compare_spec ex ez);
      try done; try lia; subst.
    all: fold (Pos.compare mx my); fold (Pos.compare my mz); fold (Pos.compare mx mz).
    all: destruct (Pos.compare_spec mx my), (Pos.compare_spec my mz), (Pos.compare_spec mx mz);
      cbn [CompOpp]; try done; lia.
Qed.

Lemma leb_trans (x y z : float) :
  (x <=? y)%float = true -> (y <=? z)%float = true -> (x <=? z)%float = true.
Proof. rewrite !FloatAxioms.leb_spec. apply SFcompare_le_trans. Qed.

(** ** The detectors as functions of the stored series *)

Lemma storedSeries_stored (kc : KlineCache) symbol tf mtk klines :
  kc !! symbol = Some mtk -> Data mtk !! tf = Some klines ->
  storedSeries kc symbol tf = klines.
Proof. intros Hs Ht. unfold storedSeries. by rewrite Hs, Ht. Qed.

Lemma DetectPinBar_storedSeries (kc : KlineCache) symbol tf :
  DetectPinBar kc symbol tf
  = match last (storedSeries kc symbol tf) with
    | Some kline => pinBarSignals symbol tf kline
    | None => []
    end.
Proof.
  unfold DetectPinBar, storedSeries.
  destruct (kc !! symbol) as [mtk|] eqn:Hs;
    [|unfold GetLatestKline, GetKlines; by rewrite Hs].
  destruct (Data mtk !! tf) as [klines|] eqn:Ht;
    [|unfold GetLatestKline, GetKlines; by rewrite Hs, Ht].
  rewrite (GetLatestKline_stored kc symbol tf mtk klines) by done.
  simpl. by destruct (last klines).
Qed.

Lemma GetLatestTwoKlines_storedSeries (kc : KlineCache) symbol tf :
  match GetLatestTwoKlines kc symbol tf with
  | Ok klines =>
      klines = drop (length (storedSeries kc symbol tf) - 2) (storedSeries kc symbol tf)
  | Err _ => storedSeries kc symbol tf = []
  | Panic => False
  end.
Proof.
  unfold GetLatestTwoKlines, storedSeries.
  destruct (kc !! symbol) as [mtk|] eqn:Hs; [|unfold GetKlines; by rewrite Hs].
  destruct (Data mtk !! tf) as [klines|] eqn:Ht; [|unfold GetKlines; by rewrite Hs, Ht].
  by rewrite (GetKlines_stored kc symbol tf 2 mtk klines) by (done || lia).
Qed.

Lemma drop_latest_two {A} (s : list A) prev cur rest :
  drop (length s - 2) s = prev :: cur :: rest ->
  rest = [] /\ s = take (length s - 2) s ++ [prev; cur].
Proof.
  intros Hdrop.
  assert (Hlen : length (drop (length s - 2) s) <= 2) by (rewrite length_drop; lia).
  rewrite Hdrop in Hlen. destruct rest; [|simpl in Hlen; lia].
  split; [done|]. by rewrite <- Hdrop, take_drop.
Qed.

Lemma DetectVolumeSpike_storedSeries (kc : KlineCache) symbol tf :
  DetectVolumeSpike kc symbol tf
  = match drop (length (storedSeries kc symbol tf) - 2) (storedSeries kc symbol tf) with
    | prevKline :: currentKline :: _ =>
        volumeSpikeSignals symbol tf prevKline currentKline
    | _ => []
    end.
Proof.
  unfold DetectVolumeSpike.
  pose proof (GetLatestTwoKlines_storedSeries kc symbol tf) as H.
  destruct (GetLatestTwoKlines kc symbol tf); [by subst|by rewrite H|done].
Qed.

Lemma DetectEngulfing_storedSeries (kc : KlineCache) symbol tf :
  DetectEngulfing kc symbol tf
  = match drop (length (storedSeries kc symbol tf) - 2) (storedSeries kc symbol tf) with
    | prevKline :: currentKline :: _ =>
        engulfingSignals symbol tf prevKline currentKline
    | _ => []
    end.
Proof.
  unfold DetectEngulfing.
  pose proof (GetLatestTwoKlines_storedSeries kc symbol tf) as H.
  destruct (GetLatestTwoKlines kc symbol tf); [by subst|by rewrite H|done].
Qed.

Lemma DetectAllSignals_flat_map (kc : KlineCache) symbol tfs :
  DetectAllSignals kc symbol tfs
  = flat_map (fun tf => DetectPinBar kc symbol tf ++ DetectVolumeSpike kc symbol tf
                          ++ DetectEngulfing kc symbol tf) tfs.
Proof.
  unfold DetectAllSignals.
  induction tfs as [|tf tfs IH] using rev_ind; [done|].
  rewrite foldl_snoc, flat_map_app, IH. cbn [flat_map].
  by rewrite app_nil_r, <- !app_assoc.
Qed.

Lemma elem_of_DetectAllSignals (kc : KlineCache) symbol tfs signal :
  signal ∈ DetectAllSignals kc symbol tfs
  <-> exists tf, tf ∈ tfs
                 /\ (signal ∈ DetectPinBar kc symbol tf
                     \/ signal ∈ DetectVolumeSpike kc symbol tf
                     \/ signal ∈ DetectEngulfing kc symbol tf).
Proof.
  rewrite DetectAllSignals_flat_map, list_elem_of_In, in_flat_map.
  split; intros (tf & Htf & Hin); exists tf.
  - apply list_elem_of_In in Htf. apply list_elem_of_In in Hin.
    by rewrite !elem_of_app in Hin.
  - rewrite <- !list_elem_of_In, !elem_of_app. done.
Qed.

(** ** What a signal carries *)

Lemma calculatePinBarConfidence_bounds (shadowLength body oppositeShadow totalRange : float) :
  (60 <= calculatePinBarConfidence shadowLength body oppositeShadow totalRange <= 100)%Z.
Proof.
  unfold calculatePinBarConfidence. cbv zeta.
  destruct (0.7 <? shadowLength / totalRange)%float,
           (0.6 <? shadowLength / totalRange)%float,
           (0.5 <? shadowLength / totalRange)%float,
           (body / totalRange <? 0.15)%float,
           (body / totalRange <? 0.25)%float,
           (oppositeShadow <? body * 0.5)%float;
    split; apply Z.leb_le; reflexivity.
Qed.

Lemma elem_of_pinBarSignals symbol tf kline signal :
  signal ∈ pinBarSignals symbol tf kline ->
  TradingSignal.Symbol signal = symbol /\ TradingSignal.TimeFrame signal = tf
  /\ TradingSignal.Price signal = Close kline
  /\ (60 <= TradingSignal.Confidence signal <= 100)%Z
  /\ (klineTotalRange kline =? 0)%float = false
  /\ (klineBody kline =? 0)%float = false
  /\ ((TradingSignal.SignalType signal = SignalBullishPinBar
       /\ TradingSignal.Direction signal = "long"%string
       /\ TradingSignal.StopLoss signal = (Low kline * 0.997)%float
       /\ TradingSignal.Confidence signal
          = calculatePinBarConfidence (klineLowerShadow kline) (klineBody kline)
              (klineUpperShadow kline) (klineTotalRange kline)
       /\ bullishPinBar (klineBody kline) (klineUpperShadow kline)
            (klineLowerShadow kline) (klineTotalRange kline) = true)
      \/ (TradingSignal.SignalType signal = SignalBearishPinBar
          /\ TradingSignal.Direction signal = "short"%string
          /\ TradingSignal.StopLoss signal = (High kline * 1.003)%float
          /\ TradingSignal.Confidence signal
             = calculatePinBarConfidence (klineUpperShadow kline) (klineBody kline)
                 (klineLowerShadow kline) (klineTotalRange kline)
          /\ bearishPinBar (klineBody kline) (klineUpperShadow kline)
               (klineLowerShadow kline) (klineTotalRange kline) = true)).
Proof.
  unfold pinBarSignals.
  destruct (klineTotalRange kline =? 0)%float; [by intros []%elem_of_nil|].
  destruct (klineBody kline =? 0)%float; [by intros []%elem_of_nil|].
  cbn [orb].
  destruct (bullishPinBar _ _ _ _) eqn:Hbull, (bearishPinBar _ _ _ _) eqn:Hbear;
    cbn [app]; rewrite ?elem_of_cons; intros Hin;
    repeat match goal with
           | H : _ \/ _ |- _ => destruct H as [->|H]
           | H : _ ∈ [] |- _ => by apply elem_of_nil in H
           end;
    cbn [TradingSignal.Symbol TradingSignal.TimeFrame TradingSignal.Price
         TradingSignal.Confidence TradingSignal.SignalType TradingSignal.Direction
         TradingSignal.StopLoss];
    (repeat split; try done; try apply calculatePinBarConfidence_bounds);
    [left|right|left|right]; done.
Qed.

Lemma elem_of_volumeSpikeSignals symbol tf prevKline currentKline signal :
  signal ∈ volumeSpikeSignals symbol tf prevKline currentKline ->
  volumeSpikeSignals symbol tf prevKline currentKline = [signal]
  /\ (Volume prevKline =? 0)%float = false
  /\ (1.5 <=? Volume currentKline / Volume prevKline)%float = true
  /\ TradingSignal.Symbol signal = symbol /\ TradingSignal.TimeFrame signal = tf
  /\ TradingSignal.SignalType signal = SignalVolumeSpike
  /\ TradingSignal.Price signal = Close currentKline
  /\ TradingSignal.Direction signal
     = (if (Close currentKline <? Open currentKline)%float then "short" else "long")%string
  /\ TradingSignal.StopLoss signal
     = (if (Close currentKline <? Open currentKline)%float
        then High currentKline * 1.003 else Low currentKline * 0.997)%float
  /\ TradingSignal.Confidence signal
     = (if (3.0 <=? Volume currentKline / Volume prevKline)%float then 95
        else if (2.5 <=? Volume currentKline / Volume prevKline)%float then 90
        else if (2.0 <=? Volume currentKline / Volume prevKline)%float then 85
        else if (1.8 <=? Volume currentKline / Volume prevKline)%float then 80
        else 70)%Z.
Proof.
  unfold volumeSpikeSignals.
  destruct (Volume prevKline =? 0)%float; [by intros []%elem_of_nil|].
  destruct (1.5 <=? Volume currentKline / Volume prevKline)%float;
    [|by intros []%elem_of_nil].
  intros ->%list_elem_of_singleton.
  cbn [TradingSignal.Symbol TradingSignal.TimeFrame TradingSignal.Price
       TradingSignal.Confidence TradingSignal.SignalType TradingSignal.Direction
       TradingSignal.StopLoss].
  repeat split. unfold calculateStopLoss.
  by destruct (Close currentKline <? Open currentKline)%float.
Qed.

Lemma volumeSpikeSignals_emits symbol tf prevKline currentKline :
  (Volume prevKline =? 0)%float = false ->
  (1.5 <=? Volume currentKline / Volume prevKline)%float = true ->
  exists signal, volumeSpikeSignals symbol tf prevKline currentKline = [signal].
Proof. intros H0 H15. unfold volumeSpikeSignals. rewrite H0, H15. by eexists. Qed.

(** The tiers of the volume ratio are nested: a ratio of at least 2, 2.5 or
    3 is a ratio of at least 1.8. *)
Lemma volume_tier_strong (ratio : float) :
  (if (3.0 <=? ratio)%float then 95
   else if (2.5 <=? ratio)%float then 90
   else if (2.0 <=? ratio)%float then 85
   else if (1.8 <=? ratio)%float then 80
   else 70)%Z
  = (if (1.8 <=? ratio)%float
     then (if (3.0 <=? ratio)%float then 95
           else if (2.5 <=? ratio)%float then 90
           else if (2.0 <=? ratio)%float then 85 else 80)
     else 70)%Z.
Proof.
  destruct (1.8 <=? ratio)%float eqn:H18; [done|].
  destruct (3.0 <=? ratio)%float eqn:H30;
    [by rewrite (leb_trans 1.8 3.0 ratio eq_refl H30) in H18|].
  destruct (2.5 <=? ratio)%float eqn:H25;
    [by rewrite (leb_trans 1.8 2.5 ratio eq_refl H25) in H18|].
  destruct (2.0 <=? ratio)%float eqn:H20;
    [by rewrite (leb_trans 1.8 2.0 ratio eq_refl H20) in H18|].
  done.
Qed.

Lemma engulfing_exclusive (prevKline currentKline : Kline) :
  bullishEngulfing prevKline currentKline && bearishEngulfing prevKline currentKline
  = false.
Proof.
  unfold bullishEngulfing, bearishEngulfing.
  destruct (Close prevKline <? Open prevKline)%float eqn:Hdown; [|done].
  by rewrite (ltb_asym _ _ Hdown), !andb_false_r.
Qed.

Lemma engulfingConfidence_cases (prevBody currentBody : float) :
  engulfingConfidence prevBody currentBody = 80%Z
  \/ engulfingConfidence prevBody currentBody = 90%Z.
Proof. unfold engulfingConfidence. destruct (_ <? _)%float; auto. Qed.

Lemma elem_of_engulfingSignals symbol tf prevKline currentKline signal :
  signal ∈ engulfingSignals symbol tf prevKline currentKline ->
  engulfingSignals symbol tf prevKline currentKline = [signal]
  /\ TradingSignal.Symbol signal = symbol /\ TradingSignal.TimeFrame signal = tf
  /\ TradingSignal.SignalType signal = SignalEngulfing
  /\ TradingSignal.Price signal = Close currentKline
  /\ TradingSignal.Confidence signal
     = engulfingConfidence (klineBody prevKline) (klineBody currentKline)
  /\ ((TradingSignal.Direction signal = "long"%string
       /\ TradingSignal.StopLoss signal = (Low currentKline * 0.995)%float
       /\ bullishEngulfing prevKline currentKline = true)
      \/ (TradingSignal.Direction signal = "short"%string
          /\ TradingSignal.StopLoss signal = (High currentKline * 1.005)%float
          /\ bearishEngulfing prevKline currentKline = true)).
Proof.
  pose proof (engulfing_exclusive prevKline currentKline) as Hex.
  unfold engulfingSignals.
  destruct (bullishEngulfing _ _) eqn:Hbull, (bearishEngulfing _ _) eqn:Hbear;
    [done| | |by intros []%elem_of_nil];
    cbn [app]; intros ->%list_elem_of_singleton;
    cbn [TradingSignal.Symbol TradingSignal.TimeFrame TradingSignal.Price
         TradingSignal.Confidence TradingSignal.SignalType TradingSignal.Direction
         TradingSignal.StopLoss];
    (repeat split; try done); [left|right]; done.
Qed.

Lemma sub_eqb (x y : float) :
  (x =? y)%float = true ->
  Prim2SF (x - y) = S754_nan \/ exists s, Prim2SF (x - y) = S754_zero s.
Proof.
  rewrite !FloatAxioms.eqb_spec, FloatAxioms.sub_spec.
  unfold SF64sub, SFeqb.
  destruct (Prim2SF x) as [sx|sx| |sx mx ex], (Prim2SF y) as [sy|sy| |sy my ey];
    cbn [SFcompare SFsub]; try done;
    try (by destruct sx); try (by destruct sy).
  - intros _. right. destruct sx, sy; by eexists.
  - destruct sx, sy; try done; by left.
  - destruct sx, sy; try done.
    all: destruct (Z.compare_spec ex ey) as [->| |]; try done.
    all: fold (Pos.compare mx my); destruct (Pos.compare_spec mx my) as [->| |]; try done.
    all: intros _; right; exists false; by rewrite Z.sub_diag.
Qed.

Lemma eqb_zero (x : float) s : Prim2SF x = S754_zero s -> (x =? 0)%float = true.
Proof. intros H. by rewrite FloatAxioms.eqb_spec, H, Prim2SF_zero. Qed.

Lemma abs_sub_eqb (x y : float) :
  (x =? y)%float = true ->
  Prim2SF (PrimFloat.abs (x - y)) = S754_nan
  \/ (PrimFloat.abs (x - y) =? 0)%float = true.
Proof.
  intros [Hnan|[s Hzero]]%sub_eqb.
  - left. by rewrite FloatAxioms.abs_spec, Hnan.
  - right. apply (eqb_zero _ false). by rewrite FloatAxioms.abs_spec, Hzero.
Qed.

Lemma pinBarSignals_no_body symbol tf kline :
  Prim2SF (klineBody kline) = S754_nan \/ (klineBody kline =? 0)%float = true ->
  pinBarSignals symbol tf kline = [].
Proof.
  intros [Hnan|Hzero]; unfold pinBarSignals.
  - unfold bullishPinBar, bearishPinBar.
    rewrite (ltb_nan_l (klineBody kline) _ Hnan), !andb_false_r. cbn [andb].
    by destruct (_ || _).
  - by rewrite Hzero, orb_true_r.
Qed.

Lemma pinBarSignals_no_range symbol tf kline :
  Prim2SF (klineTotalRange kline) = S754_nan \/ (klineTotalRange kline =? 0)%float = true ->
  pinBarSignals symbol tf kline = [].
Proof.
  intros [Hnan|Hzero]; unfold pinBarSignals.
  - unfold bullishPinBar, bearishPinBar.
    rewrite (ltb_nan_r (klineBody kline) _ (mul_nan_l _ 0.3 Hnan)), !andb_false_r.
    cbn [andb]. by destruct (_ || _).
  - by rewrite Hzero.
Qed.

Lemma volumeSpikeSignals_length symbol tf prevKline currentKline :
  length (volumeSpikeSignals symbol tf prevKline currentKline) <= 1.
Proof.
  unfold volumeSpikeSignals.
  destruct (_ =? _)%float; [simpl; lia|]. destruct (_ <=? _)%float; simpl; lia.
Qed.

Lemma engulfingSignals_length symbol tf prevKline currentKline :
  length (engulfingSignals symbol tf prevKline currentKline) <= 1.
Proof.
  pose proof (engulfing_exclusive prevKline currentKline) as Hex.
  unfold engulfingSignals.
  destruct (bullishEngulfing _ _), (bearishEngulfing _ _); simpl in *; (done || lia).
Qed.

Lemma DetectVolumeSpike_length (kc : KlineCache) symbol tf :
  length (DetectVolumeSpike kc symbol tf) <= 1.
Proof.
  unfold DetectVolumeSpike.
  destruct (GetLatestTwoKlines kc symbol tf) as [[|prevKline [|currentKline rest]]| |];
    try (simpl; lia). apply volumeSpikeSignals_length.
Qed.

Lemma DetectEngulfing_length (kc : KlineCache) symbol tf :
  length (DetectEngulfing kc symbol tf) <= 1.
Proof.
  unfold DetectEngulfing.
  destruct (GetLatestTwoKlines kc symbol tf) as [[|prevKline [|currentKline rest]]| |];
    try (simpl; lia). apply engulfingSignals_length.
Qed.

Lemma DetectPinBar_length (kc : KlineCache) symbol tf :
  length (DetectPinBar kc symbol tf) <= 1.
Proof.
  unfold DetectPinBar.
  destruct (GetLatestKline kc symbol tf); [apply pinBarSignals_length|simpl; lia..].
Qed.

Lemma DetectVolumeSpike_stored (kc : KlineCache) symbol tf mtk older prevKline currentKline :
  kc !! symbol = Some mtk ->
  Data mtk !! tf = Some (older ++ [prevKline; currentKline]) ->
  DetectVolumeSpike kc symbol tf = volumeSpikeSignals symbol tf prevKline currentKline.
Proof.
  intros Hs Ht. unfold DetectVolumeSpike.
  by rewrite (GetLatestTwoKlines_stored kc symbol tf mtk older prevKline currentKline).
Qed.

Lemma DetectEngulfing_stored (kc : KlineCache) symbol tf mtk older prevKline currentKline :
  kc !! symbol = Some mtk ->
  Data mtk !! tf = Some (older ++ [prevKline; currentKline]) ->
  DetectEngulfing kc symbol tf = engulfingSignals symbol tf prevKline currentKline.
Proof.
  intros Hs Ht. unfold DetectEngulfing.
  by rewrite (GetLatestTwoKlines_stored kc symbol tf mtk older prevKline currentKline).
Qed.

Lemma DetectPinBar_stored (kc : KlineCache) symbol tf mtk klines kline :
  kc !! symbol = Some mtk -> Data mtk !! tf = Some klines ->
  last klines = Some kline ->
  DetectPinBar kc symbol tf = pinBarSignals symbol tf kline.
Proof.
  intros Hs Ht Hlast. unfold DetectPinBar.
  by rewrite (GetLatestKline_stored kc symbol tf mtk klines), Hlast.
Qed.

(** ** What [DetectAllSignals] returns *)

(** X15.  [DetectVolumeSpike] and [DetectEngulfing] compare the latest two
    candles: while the cache holds fewer than two candles for a symbol and
    timeframe, be it that the symbol or the timeframe is missing, they
    return no signal. *)
Theorem detectors_need_two_candles (kc : KlineCache) symbol tf :
  length (storedSeries kc symbol tf) < 2 ->
  DetectVolumeSpike kc symbol tf = [] /\ DetectEngulfing kc symbol tf = [].
Proof.
  intros Hlen. rewrite DetectVolumeSpike_storedSeries, DetectEngulfing_storedSeries.
  destruct (storedSeries kc symbol tf) as [|k [|k' s]]; simpl in *; [done|done|lia].
Qed.

Lemma detectors_need_two_candles_witness :
  DetectVolumeSpike (cache_of "BTCUSDT" "5m" [k1]) "BTCUSDT" "5m" = []
  /\ DetectEngulfing (cache_of "BTCUSDT" "5m" [k1]) "BTCUSDT" "5m" = [].
Proof.
  apply (detectors_need_two_candles (cache_of "BTCUSDT" "5m" [k1]) "BTCUSDT" "5m").
  vm_compute. lia.
Defined.

(** X16.  [DetectAllSignals] swallows the errors of the cache: for a symbol
    that was never initialized, or whose series are all missing or empty,
    it returns no signal. *)
Theorem DetectAllSignals_no_data (kc : KlineCache) symbol tfs :
  Forall (fun tf => storedSeries kc symbol tf = []) tfs ->
  DetectAllSignals kc symbol tfs = [].
Proof.
  rewrite DetectAllSignals_flat_map.
  induction 1 as [|tf tfs Htf _ IH]; [done|]. cbn [flat_map].
  by rewrite DetectPinBar_storedSeries, DetectVolumeSpike_storedSeries,
    DetectEngulfing_storedSeries, Htf, IH.
Qed.

Lemma DetectAllSignals_no_data_witness :
  DetectAllSignals (cache_of "BTCUSDT" "5m" [k1; k2]) "ETHUSDT" timeFrames = [].
Proof.
  apply (DetectAllSignals_no_data (cache_of "BTCUSDT" "5m" [k1; k2]) "ETHUSDT" timeFrames).
  repeat constructor.
Defined.

(** X17.  [DetectAllSignals] returns at most three signals for each
    timeframe it is given, one of each detector, and the signals of a list
    of timeframes are those of its parts, in order. *)
Theorem DetectAllSignals_at_most_three (kc : KlineCache) symbol tfs more :
  length (DetectAllSignals kc symbol tfs) <= 3 * length tfs
  /\ DetectAllSignals kc symbol (tfs ++ more)
     = DetectAllSignals kc symbol tfs ++ DetectAllSignals kc symbol more.
Proof.
  rewrite !DetectAllSignals_flat_map. split; [|apply flat_map_app].
  induction tfs as [|tf tfs IH]; [simpl; lia|].
  cbn [flat_map]. rewrite !length_app. cbn [length].
  pose proof (DetectPinBar_length kc symbol tf).
  pose proof (DetectVolumeSpike_length kc symbol tf).
  pose proof (DetectEngulfing_length kc symbol tf). lia.
Qed.

(** X18.  Every signal [DetectAllSignals] returns is for the symbol asked
    for and for one of the timeframes given, has direction long or short
    and a confidence from 60 to 100, and is priced at the close of the
    latest candle the cache holds for its timeframe. *)
Theorem DetectAllSignals_signal (kc : KlineCache) symbol tfs signal :
  signal ∈ DetectAllSignals kc symbol tfs ->
  TradingSignal.Symbol signal = symbol
  /\ TradingSignal.TimeFrame signal ∈ tfs
  /\ (TradingSignal.Direction signal = "long"%string
      \/ TradingSignal.Direction signal = "short"%string)
  /\ (60 <= TradingSignal.Confidence signal <= 100)%Z
  /\ exists kline,
       last (storedSeries kc symbol (TradingSignal.TimeFrame signal)) = Some kline
       /\ TradingSignal.Price signal = Close kline.
Proof.
  intros (tf & Htf & Hin)%elem_of_DetectAllSignals.
  destruct Hin as [Hin|[Hin|Hin]].
  - rewrite DetectPinBar_storedSeries in Hin.
    destruct (last (storedSeries kc symbol tf)) as [kline|] eqn:Hlast;
      [|by apply elem_of_nil in Hin].
    destruct (elem_of_pinBarSignals _ _ _ _ Hin)
      as (Hsym & Htime & Hprice & Hconf & _ & _ & Hkind).
    rewrite Htime. repeat split; try done.
    + destruct Hkind as [(_ & Hdir & _)|(_ & Hdir & _)]; auto.
    + apply Hconf.
    + apply Hconf.
    + by exists kline.
  - rewrite DetectVolumeSpike_storedSeries in Hin.
    destruct (drop _ _) as [|prevKline [|currentKline rest]] eqn:Hdrop;
      try by apply elem_of_nil in Hin.
    destruct (drop_latest_two _ _ _ _ Hdrop) as [-> Hseries].
    destruct (elem_of_volumeSpikeSignals _ _ _ _ _ Hin)
      as (_ & _ & _ & Hsym & Htime & _ & Hprice & Hdir & _ & Hconf).
    rewrite Htime. repeat split; try done.
    + rewrite Hdir. destruct (_ <? _)%float; auto.
    + rewrite Hconf. repeat destruct (_ <=? _)%float; lia.
    + rewrite Hconf. repeat destruct (_ <=? _)%float; lia.
    + exists currentKline. split; [|done].
      rewrite Hseries. change [prevKline; currentKline] with ([prevKline] ++ [currentKline]).
      by rewrite app_assoc, last_snoc.
  - rewrite DetectEngulfing_storedSeries in Hin.
    destruct (drop _ _) as [|prevKline [|currentKline rest]] eqn:Hdrop;
      try by apply elem_of_nil in Hin.
    destruct (drop_latest_two _ _ _ _ Hdrop) as [-> Hseries].
    destruct (elem_of_engulfingSignals _ _ _ _ _ Hin)
      as (_ & Hsym & Htime & _ & Hprice & Hconf & Hkind).
    rewrite Htime. repeat split; try done.
    + destruct Hkind as [(Hdir & _)|(Hdir & _)]; auto.
    + rewrite Hconf. destruct (engulfingConfidence_cases (klineBody prevKline)
                                 (klineBody currentKline)) as [->| ->]; lia.
    + rewrite Hconf. destruct (engulfingConfidence_cases (klineBody prevKline)
                                 (klineBody currentKline)) as [->| ->]; lia.
    + exists currentKline. split; [|done].
      rewrite Hseries. change [prevKline; currentKline] with ([prevKline] ++ [currentKline]).
      by rewrite app_assoc, last_snoc.
Qed.

Lemma DetectAllSignals_signal_witness :
  TradingSignal.Symbol sigHammer = "BTCUSDT"%string
  /\ TradingSignal.TimeFrame sigHammer ∈ ["5m"%string]
  /\ (TradingSignal.Direction sigHammer = "long"%string
      \/ TradingSignal.Direction sigHammer = "short"%string)
  /\ (60 <= TradingSignal.Confidence sigHammer <= 100)%Z
  /\ exists kline,
       last (storedSeries (cache_of "BTCUSDT" "5m" [hammer]) "BTCUSDT"
               (TradingSignal.TimeFrame sigHammer)) = Some kline
       /\ TradingSignal.Price sigHammer = Close kline.
Proof.
  apply (DetectAllSignals_signal (cache_of "BTCUSDT" "5m" [hammer]) "BTCUSDT" ["5m"%string]
           sigHammer).
  vm_compute. left.
Defined.

(** ** The three detectors, one by one *)

(** X19.  Let [prevKline] and [currentKline] be the latest two stored
    candles.  [DetectVolumeSpike] returns a signal, and then only one,
    exactly when the previous volume is not zero and the ratio of the
    current volume to it is at least 1.5.  The signal is short when the
    current candle closed below its open and long otherwise, with the stop
    loss of [calculateStopLoss] for that direction, and its confidence is
    70, 80, 85, 90 or 95.  It passes [FilterStrongSignals] exactly when the
    ratio is at least 1.8. *)
Theorem DetectVolumeSpike_spec (kc : KlineCache) symbol tf mtk older prevKline currentKline :
  kc !! symbol = Some mtk ->
  Data mtk !! tf = Some (older ++ [prevKline; currentKline]) ->
  (DetectVolumeSpike kc symbol tf <> []
   <-> (Volume prevKline =? 0)%float = false
       /\ (1.5 <=? Volume currentKline / Volume prevKline)%float = true)
  /\ length (DetectVolumeSpike kc symbol tf) <= 1
  /\ (forall signal, signal ∈ DetectVolumeSpike kc symbol tf ->
        TradingSignal.Direction signal
        = (if (Close currentKline <? Open currentKline)%float
           then "short" else "long")%string
        /\ TradingSignal.StopLoss signal
           = (if (Close currentKline <? Open currentKline)%float
              then High currentKline * 1.003 else Low currentKline * 0.997)%float
        /\ TradingSignal.Confidence signal ∈ [70; 80; 85; 90; 95]%Z)
  /\ FilterStrongSignals (DetectVolumeSpike kc symbol tf)
     = (if (1.8 <=? Volume currentKline / Volume prevKline)%float
        then DetectVolumeSpike kc symbol tf else []).
Proof.
  intros Hs Ht.
  rewrite (DetectVolumeSpike_stored kc symbol tf mtk older prevKline currentKline Hs Ht).
  split; [|split; [apply volumeSpikeSignals_length|split]].
  - split.
    + destruct (volumeSpikeSignals symbol tf prevKline currentKline)
        as [|signal rest] eqn:Hsignals; [done|]. intros _.
      assert (Hin : signal ∈ volumeSpikeSignals symbol tf prevKline currentKline)
        by (rewrite Hsignals; left).
      by destruct (elem_of_volumeSpikeSignals _ _ _ _ _ Hin) as (_ & H0 & H15 & _).
    + intros [H0 H15].
      by destruct (volumeSpikeSignals_emits symbol tf _ _ H0 H15) as [signal ->].
  - intros signal Hin.
    destruct (elem_of_volumeSpikeSignals _ _ _ _ _ Hin)
      as (_ & _ & _ & _ & _ & _ & _ & Hdir & Hstop & Hconf).
    split; [done|]. split; [done|]. rewrite Hconf.
    repeat destruct (_ <=? _)%float; set_solver.
  - rewrite FilterStrongSignals_filter.
    destruct (volumeSpikeSignals symbol tf prevKline currentKline)
      as [|signal rest] eqn:Hsignals; [by destruct (_ <=? _)%float|].
    assert (Hin : signal ∈ volumeSpikeSignals symbol tf prevKline currentKline)
      by (rewrite Hsignals; left).
    destruct (elem_of_volumeSpikeSignals _ _ _ _ _ Hin)
      as (Hone & _ & _ & _ & _ & _ & _ & _ & _ & Hconf).
    rewrite Hsignals in Hone. rewrite Hone.
    rewrite volume_tier_strong in Hconf.
    destruct (1.8 <=? Volume currentKline / Volume prevKline)%float.
    + rewrite filter_cons_True; [done|].
      rewrite Hconf. repeat destruct (_ <=? _)%float; lia.
    + rewrite filter_cons_False; [done|]. rewrite Hconf. lia.
Qed.

Lemma DetectVolumeSpike_spec_witness :
  FilterStrongSignals
    (DetectVolumeSpike
       (cache_of "BTCUSDT" "5m"
          [candle 300000 100 101 99 100.5 100; candle 600000 100.5 101 98 99 170])
       "BTCUSDT" "5m")
  = (if (1.8 <=? Volume (candle 600000 100.5 101 98 99 170)
                 / Volume (candle 300000 100 101 99 100.5 100))%float
     then DetectVolumeSpike
            (cache_of "BTCUSDT" "5m"
               [candle 300000 100 101 99 100.5 100; candle 600000 100.5 101 98 99 170])
            "BTCUSDT" "5m"
     else []).
Proof.
  apply (DetectVolumeSpike_spec
           (cache_of "BTCUSDT" "5m"
              [candle 300000 100 101 99 100.5 100; candle 600000 100.5 101 98 99 170])
           "BTCUSDT" "5m"
           {| Symbol := "BTCUSDT";
              Data := {[ "5m" := [candle 300000 100 101 99 100.5 100;
                                  candle 600000 100.5 101 98 99 170] ]} |}
           [] (candle 300000 100 101 99 100.5 100) (candle 600000 100.5 101 98 99 170)
           eq_refl eq_refl).
Defined.

Lemma filter_Forall {A} (P : A -> Prop) `{!forall x, Decision (P x)} (l : list A) :
  Forall P l -> filter P l = l.
Proof. induction 1 as [|x l Hx _ IH]; [done|]. by rewrite filter_cons_True, IH. Qed.

(** X20.  [DetectEngulfing] returns at most one signal, whatever the cache
    holds: the bullish test needs the previous candle to close below its
    open and the bearish test needs it to close above.  Its signals have
    type engulfing and confidence 80 or 90, so [FilterStrongSignals] keeps
    all of them. *)
Theorem DetectEngulfing_at_most_one (kc : KlineCache) symbol tf :
  length (DetectEngulfing kc symbol tf) <= 1
  /\ (forall prevKline currentKline,
        bullishEngulfing prevKline currentKline
        && bearishEngulfing prevKline currentKline = false)
  /\ (forall signal, signal ∈ DetectEngulfing kc symbol tf ->
        TradingSignal.SignalType signal = SignalEngulfing
        /\ (TradingSignal.Confidence signal = 80%Z
            \/ TradingSignal.Confidence signal = 90%Z))
  /\ FilterStrongSignals (DetectEngulfing kc symbol tf) = DetectEngulfing kc symbol tf.
Proof.
  assert (Hsignal : forall signal, signal ∈ DetectEngulfing kc symbol tf ->
            TradingSignal.SignalType signal = SignalEngulfing
            /\ (TradingSignal.Confidence signal = 80%Z
                \/ TradingSignal.Confidence signal = 90%Z)).
  { intros signal. rewrite DetectEngulfing_storedSeries.
    destruct (drop _ _) as [|prevKline [|currentKline rest]];
      try by intros []%elem_of_nil.
    intros (_ & _ & _ & Htype & _ & Hconf & _)%elem_of_engulfingSignals.
    split; [done|]. rewrite Hconf. apply engulfingConfidence_cases. }
  split; [apply DetectEngulfing_length|]. split; [apply engulfing_exclusive|].
  split; [done|].
  rewrite FilterStrongSignals_filter. apply filter_Forall.
  apply Forall_forall. intros signal Hin.
  destruct (Hsignal signal Hin) as [_ [-> | ->]]; lia.
Qed.

Lemma elem_of_engulfingSignals_short symbol tf prevKline currentKline :
  bearishEngulfing prevKline currentKline = true ->
  exists signal, signal ∈ engulfingSignals symbol tf prevKline currentKline
                 /\ TradingSignal.Direction signal = "short"%string.
Proof.
  intros Hbear. pose proof (engulfing_exclusive prevKline currentKline) as Hex.
  rewrite Hbear, andb_true_r in Hex.
  unfold engulfingSignals. rewrite Hbear, Hex. cbn [app].
  eexists. split; [left|done].
Qed.

(** X21.  The bearish side of [DetectEngulfing].  Let [prevKline] and
    [currentKline] be the latest two stored candles.  A short signal is
    returned exactly when the previous candle closed above its open, the
    current one closed below its open, opened above the previous close,
    closed below the previous open, and has the larger body.  That signal
    is priced at the current close, its stop loss is the current high times
    1.005, and its confidence is 90 when the current body exceeds the
    previous body times 1.5, and 80 otherwise. *)
Theorem DetectEngulfing_bearish (kc : KlineCache) symbol tf mtk older prevKline currentKline :
  kc !! symbol = Some mtk ->
  Data mtk !! tf = Some (older ++ [prevKline; currentKline]) ->
  ((exists signal, signal ∈ DetectEngulfing kc symbol tf
                   /\ TradingSignal.Direction signal = "short"%string)
   <-> ((Open prevKline <? Close prevKline)%float = true
        /\ (Close currentKline <? Open currentKline)%float = true
        /\ (Close prevKline <? Open currentKline)%float = true
        /\ (Close currentKline <? Open prevKline)%float = true
        /\ (math.Abs (Close prevKline - Open prevKline)
            <? math.Abs (Close currentKline - Open currentKline))%float = true))
  /\ (forall signal,
        signal ∈ DetectEngulfing kc symbol tf ->
        TradingSignal.Direction signal = "short"%string ->
        TradingSignal.Price signal = Close currentKline
        /\ TradingSignal.StopLoss signal = (High currentKline * 1.005)%float
        /\ TradingSignal.Confidence signal
           = if (math.Abs (Close prevKline - Open prevKline) * 1.5
                 <? math.Abs (Close currentKline - Open currentKline))%float
             then 90%Z else 80%Z).
Proof.
  intros Hs Ht.
  rewrite (DetectEngulfing_stored kc symbol tf mtk older prevKline currentKline Hs Ht).
  split.
  - split.
    + intros (signal & Hin & Hdir).
      destruct (elem_of_engulfingSignals _ _ _ _ _ Hin)
        as (_ & _ & _ & _ & _ & _ & [(Hlong & _)|(_ & _ & Hbear)]);
        [by rewrite Hdir in Hlong|].
      unfold bearishEngulfing in Hbear. rewrite !andb_true_iff in Hbear. tauto.
    + intros (H1 & H2 & H3 & H4 & H5). apply elem_of_engulfingSignals_short.
      unfold bearishEngulfing. by rewrite H1, H2, H3, H4, H5.
  - intros signal Hin Hdir.
    destruct (elem_of_engulfingSignals _ _ _ _ _ Hin)
      as (_ & _ & _ & _ & Hprice & Hconf & [(Hlong & _)|(_ & Hstop & _)]);
      [by rewrite Hdir in Hlong|done].
Qed.

Lemma DetectEngulfing_bearish_witness :
  exists signal,
    signal ∈ DetectEngulfing
               (cache_of "BTCUSDT" "5m"
                  [candle 300000 100 106 99.5 105 10; candle 600000 106 108 97 98 12])
               "BTCUSDT" "5m"
    /\ TradingSignal.Direction signal = "short"%string.
Proof.
  apply (proj1 (DetectEngulfing_bearish
                  (cache_of "BTCUSDT" "5m"
                     [candle 300000 100 106 99.5 105 10; candle 600000 106 108 97 98 12])
                  "BTCUSDT" "5m"
                  {| Symbol := "BTCUSDT";
                     Data := {[ "5m" := [candle 300000 100 106 99.5 105 10;
                                         candle 600000 106 108 97 98 12] ]} |}
                  [] (candle 300000 100 106 99.5 105 10) (candle 600000 106 108 97 98 12)
                  eq_refl eq_refl)).
  repeat split; reflexivity.
Defined.

Lemma elem_of_pinBarSignals_short symbol tf kline :
  (klineTotalRange kline =? 0)%float = false ->
  (klineBody kline =? 0)%float = false ->
  bearishPinBar (klineBody kline) (klineUpperShadow kline)
    (klineLowerShadow kline) (klineTotalRange kline) = true ->
  exists signal, signal ∈ pinBarSignals symbol tf kline
                 /\ TradingSignal.SignalType signal = SignalBearishPinBar
                 /\ TradingSignal.Direction signal = "short"%string.
Proof.
  intros Hrange Hbody Hbear. unfold pinBarSignals. rewrite Hrange, Hbody, Hbear.
  cbn [orb].
  destruct (bullishPinBar _ _ _ _); cbn [app]; eexists.
  - split; [right; left|done].
  - split; [left|done].
Qed.

(** X22.  The bearish side of [DetectPinBar].  Let [kline] be the latest
    stored candle, with a range and a body that are not zero.  A bearish
    pin-bar signal, of direction short, is returned exactly when
    [body * 1.5 < upper], [body < range * 0.3] and [lower < body]; it is
    priced at the close, its stop loss is the high times 1.003, and its
    confidence is that of [calculatePinBarConfidence] for the upper shadow
    with the lower one as the opposite shadow. *)
Theorem DetectPinBar_bearish (kc : KlineCache) symbol tf mtk klines kline :
  kc !! symbol = Some mtk -> Data mtk !! tf = Some klines ->
  last klines = Some kline ->
  (klineTotalRange kline =? 0)%float = false ->
  (klineBody kline =? 0)%float = false ->
  ((exists signal, signal ∈ DetectPinBar kc symbol tf
                   /\ TradingSignal.SignalType signal = SignalBearishPinBar
                   /\ TradingSignal.Direction signal = "short"%string)
   <-> ((klineBody kline * 1.5 <? klineUpperShadow kline)%float = true
        /\ (klineBody kline <? klineTotalRange kline * 0.3)%float = true
        /\ (klineLowerShadow kline <? klineBody kline)%float = true))
  /\ (forall signal,
        signal ∈ DetectPinBar kc symbol tf ->
        TradingSignal.SignalType signal = SignalBearishPinBar ->
        TradingSignal.Direction signal = "short"%string
        /\ TradingSignal.Price signal = Close kline
        /\ TradingSignal.StopLoss signal = (High kline * 1.003)%float
        /\ TradingSignal.Confidence signal
           = calculatePinBarConfidence (klineUpperShadow kline) (klineBody kline)
               (klineLowerShadow kline) (klineTotalRange kline)).
Proof.
  intros Hs Ht Hlast Hrange Hbody.
  rewrite (DetectPinBar_stored kc symbol tf mtk klines kline Hs Ht Hlast).
  split.
  - split.
    + intros (signal & Hin & Htype & Hdir).
      destruct (elem_of_pinBarSignals _ _ _ _ Hin)
        as (_ & _ & _ & _ & _ & _ & [(Hbull & _)|(_ & _ & _ & _ & Hbear)]);
        [by rewrite Htype in Hbull|].
      unfold bearishPinBar in Hbear. rewrite !andb_true_iff in Hbear. tauto.
    + intros (H1 & H2 & H3). apply elem_of_pinBarSignals_short; [done..|].
      unfold bearishPinBar. by rewrite H1, H2, H3.
  - intros signal Hin Htype.
    destruct (elem_of_pinBarSignals _ _ _ _ Hin)
      as (_ & _ & Hprice & _ & _ & _ & [(Hbull & _)|(_ & Hdir & Hstop & Hconf & _)]);
      [by rewrite Htype in Hbull|done].
Qed.

Lemma DetectPinBar_bearish_witness :
  exists signal,
    signal ∈ DetectPinBar (cache_of "BTCUSDT" "5m" [candle 300000 100.8 111 100 100 10])
               "BTCUSDT" "5m"
    /\ TradingSignal.SignalType signal = SignalBearishPinBar
    /\ TradingSignal.Direction signal = "short"%string.
Proof.
  apply (proj1 (DetectPinBar_bearish
                  (cache_of "BTCUSDT" "5m" [candle 300000 100.8 111 100 100 10])
                  "BTCUSDT" "5m"
                  {| Symbol := "BTCUSDT";
                     Data := {[ "5m" := [candle 300000 100.8 111 100 100 10] ]} |}
                  [candle 300000 100.8 111 100 100 10]
                  (candle 300000 100.8 111 100 100 10)
                  eq_refl eq_refl eq_refl eq_refl eq_refl)).
  repeat split; reflexivity.
Defined.

(** X23.  [calculatePinBarConfidence] returns a score from 60 to 100, and
    100 exactly when the shadow is more than 0.7 of the range, the body
    less than 0.15 of it, and the opposite shadow less than half the body:
    the three bonuses add up to 40 at most, so the cap at 100 never cuts a
    score. *)
Theorem calculatePinBarConfidence_range (shadowLength body oppositeShadow totalRange : float) :
  (60 <= calculatePinBarConfidence shadowLength body oppositeShadow totalRange <= 100)%Z
  /\ (calculatePinBarConfidence shadowLength body oppositeShadow totalRange = 100%Z
      <-> (0.7 <? shadowLength / totalRange)%float = true
          /\ (body / totalRange <? 0.15)%float = true
          /\ (oppositeShadow <? body * 0.5)%float = true).
Proof.
  split; [apply calculatePinBarConfidence_bounds|].
  unfold calculatePinBarConfidence. cbv zeta.
  destruct (0.7 <? shadowLength / totalRange)%float,
           (0.6 <? shadowLength / totalRange)%float,
           (0.5 <? shadowLength / totalRange)%float,
           (body / totalRange <? 0.15)%float,
           (body / totalRange <? 0.25)%float,
           (oppositeShadow <? body * 0.5)%float;
    (split; [intros H; vm_compute in H; (done || discriminate H)
            |intros (? & ? & ?); (done || discriminate)]).
Qed.

(** X24.  A candle whose close equals its open, or whose high equals its
    low, gives no pin-bar signal: the body, or the range, is then zero, or
    not a number when the two prices are infinite, and in both cases
    [DetectPinBar] returns nothing. *)
Theorem DetectPinBar_doji (kc : KlineCache) symbol tf mtk klines kline :
  kc !! symbol = Some mtk -> Data mtk !! tf = Some klines ->
  last klines = Some kline ->
  (Close kline =? Open kline)%float = true \/ (High kline =? Low kline)%float = true ->
  DetectPinBar kc symbol tf = [].
Proof.
  intros Hs Ht Hlast Hflat.
  rewrite (DetectPinBar_stored kc symbol tf mtk klines kline Hs Ht Hlast).
  destruct Hflat as [Hdoji|Hflat].
  - apply pinBarSignals_no_body. by apply abs_sub_eqb.
  - apply pinBarSignals_no_range.
    destruct (sub_eqb _ _ Hflat) as [Hnan|[s Hzero]]; [by left|right].
    by apply (eqb_zero _ s).
Qed.

Lemma DetectPinBar_doji_witness :
  DetectPinBar (cache_of "BTCUSDT" "5m" [candle 300000 100 101 90 100 10])
    "BTCUSDT" "5m" = [].
Proof.
  apply (DetectPinBar_doji
           (cache_of "BTCUSDT" "5m" [candle 300000 100 101 90 100 10]) "BTCUSDT" "5m"
           {| Symbol := "BTCUSDT";
              Data := {[ "5m" := [candle 300000 100 101 90 100 10] ]} |}
           [candle 300000 100 101 90 100 10] (candle 300000 100 101 90 100 10)
           eq_refl eq_refl eq_refl).
  left. reflexivity.
Defined.

Lemma groupedCount_insert (combined : gmap string (list TradingSignal.t)) key group :
  groupedCount (<[key := group]> combined)
  = length group + groupedCount (delete key combined).
Proof.
  rewrite <- insert_delete_eq. unfold groupedCount.
  rewrite map_fold_insert_L; [done|intros; lia|apply lookup_delete_eq].
Qed.

Lemma groupedCount_delete (combined : gmap string (list TradingSignal.t)) key :
  groupedCount combined
  = length (default [] (combined !! key)) + groupedCount (delete key combined).
Proof.
  destruct (combined !! key) as [group|] eqn:Hkey; cbn.
  - rewrite <- (insert_delete_id combined key group Hkey) at 1.
    unfold groupedCount.
    rewrite map_fold_insert_L; [done|intros; lia|apply lookup_delete_eq].
  - by rewrite delete_id.
Qed.

Lemma DetectAllSignals_fields (kc : KlineCache) symbol tfs signal :
  signal ∈ DetectAllSignals kc symbol tfs ->
  TradingSignal.Symbol signal = symbol
  /\ TradingSignal.TimeFrame signal ∈ tfs
  /\ (TradingSignal.Direction signal = "long"%string
      \/ TradingSignal.Direction signal = "short"%string).
Proof.
  intros (tf & Htf & Hin)%elem_of_DetectAllSignals.
  destruct Hin as [Hin|[Hin|Hin]].
  - rewrite DetectPinBar_storedSeries in Hin.
    destruct (last (storedSeries kc symbol tf)) as [kline|];
      [|by apply elem_of_nil in Hin].
    destruct (elem_of_pinBarSignals _ _ _ _ Hin)
      as (Hsym & Htime & _ & _ & _ & _ & Hkind).
    rewrite Htime. repeat split; try done.
    destruct Hkind as [(_ & Hdir & _)|(_ & Hdir & _)]; auto.
  - rewrite DetectVolumeSpike_storedSeries in Hin.
    destruct (drop _ _) as [|prevKline [|currentKline rest]];
      try by apply elem_of_nil in Hin.
    destruct (elem_of_volumeSpikeSignals _ _ _ _ _ Hin)
      as (_ & _ & _ & Hsym & Htime & _ & _ & Hdir & _).
    rewrite Htime. repeat split; try done.
    rewrite Hdir. destruct (_ <? _)%float; auto.
  - rewrite DetectEngulfing_storedSeries in Hin.
    destruct (drop _ _) as [|prevKline [|currentKline rest]];
      try by apply elem_of_nil in Hin.
    destruct (elem_of_engulfingSignals _ _ _ _ _ Hin)
      as (_ & Hsym & Htime & _ & _ & _ & Hkind).
    rewrite Htime. repeat split; try done.
    destruct Hkind as [(Hdir & _)|(Hdir & _)]; auto.
Qed.

Lemma groupedCount_CombineSignals (signals : list TradingSignal.t) :
  groupedCount (CombineSignals signals) = length signals.
Proof.
  unfold CombineSignals.
  induction signals as [|signal signals IH] using rev_ind; [done|].
  rewrite foldl_snoc. cbv zeta.
  rewrite groupedCount_insert, !length_app, <- IH.
  rewrite (groupedCount_delete (foldl _ ∅ signals) (signalKey signal)).
  simpl. lia.
Qed.

(** * Further properties of filtering and grouping *)

(** X25.  [FilterStrongSignals] keeps exactly the signals whose confidence
    is at least 80, in the order of the input; filtering twice is
    filtering once, and filtering a concatenation is concatenating the
    filtered parts. *)
Theorem FilterStrongSignals_spec (signals more : list TradingSignal.t) :
  (forall signal,
     signal ∈ FilterStrongSignals signals
     <-> signal ∈ signals /\ (80 <= TradingSignal.Confidence signal)%Z)
  /\ FilterStrongSignals signals `sublist_of` signals
  /\ FilterStrongSignals (FilterStrongSignals signals) = FilterStrongSignals signals
  /\ FilterStrongSignals (signals ++ more)
     = FilterStrongSignals signals ++ FilterStrongSignals more.
Proof.
  rewrite !FilterStrongSignals_filter. split; [|split; [|split]].
  - intros signal. rewrite list_elem_of_filter. tauto.
  - apply sublist_filter.
  - by apply list_filter_filter_l.
  - apply filter_app.
Qed.

(** X26.  [CombineSignals] partitions its input by key, whatever the
    symbols, timeframes and directions are: the group of a key holds the
    signals with that key, in the order of the input, and is never empty;
    every signal is in the group of its key; the groups hold as many
    signals as the input; and the map is empty only for an empty input. *)
Theorem CombineSignals_partition (signals : list TradingSignal.t) :
  (forall key group,
     CombineSignals signals !! key = Some group
     <-> group <> [] /\ group = filter (fun signal => signalKey signal = key) signals)
  /\ (forall signal, signal ∈ signals ->
        exists group, CombineSignals signals !! signalKey signal = Some group
                      /\ signal ∈ group)
  /\ groupedCount (CombineSignals signals) = length signals
  /\ (CombineSignals signals = ∅ <-> signals = []).
Proof.
  assert (Hin : forall signal, signal ∈ signals ->
            exists group, CombineSignals signals !! signalKey signal = Some group
                          /\ signal ∈ group).
  { intros signal Hin. rewrite CombineSignals_lookup.
    assert (Hmem : signal ∈ filter (fun s => signalKey s = signalKey signal) signals)
      by (by apply list_elem_of_filter).
    destruct (filter _ signals) as [|first rest]; [by apply elem_of_nil in Hmem|].
    by eexists. }
  split; [|split; [done|split; [apply groupedCount_CombineSignals|]]].
  - intros key group. rewrite CombineSignals_lookup.
    destruct (filter _ signals) as [|first rest]; split.
    + done.
    + by intros [? ->].
    + by intros [= <-].
    + by intros [_ ->].
  - split; [|by intros ->].
    destruct signals as [|signal signals]; [done|]. intros Hempty.
    destruct (Hin signal) as (group & Hgroup & _); [left|].
    by rewrite Hempty, lookup_empty in Hgroup.
Qed.

(** X27.  Filtering and grouping commute: the groups of the strong signals
    are the strong signals of each group, and a group none of whose
    signals is strong has no entry. *)
Theorem CombineSignals_strong (signals : list TradingSignal.t) (key : string) :
  CombineSignals (FilterStrongSignals signals) !! key
  = match FilterStrongSignals (default [] (CombineSignals signals !! key)) with
    | [] => None
    | group => Some group
    end.
Proof.
  rewrite !CombineSignals_lookup, !FilterStrongSignals_filter.
  assert (Hcomm : filter (fun signal => signalKey signal = key)
                    (filter (fun signal => (80 <= TradingSignal.Confidence signal)%Z) signals)
                  = filter (fun signal => (80 <= TradingSignal.Confidence signal)%Z)
                      (filter (fun signal => signalKey signal = key) signals)).
  { rewrite !list_filter_filter. apply list_filter_iff. intros signal. tauto. }
  rewrite Hcomm.
  by destruct (filter (fun signal => signalKey signal = key) signals).
Qed.

(** X28.  Grouping what the detector returns.  For timeframes that hold no
    underscore, as the six declared ones, the signals [DetectAllSignals]
    finds for a symbol are grouped by timeframe and direction: the entry
    for [symbol_tf_direction] holds the detected signals of that timeframe
    and direction, in the order of detection, also when the symbol itself
    holds underscores. *)
Theorem CombineSignals_detected (kc : KlineCache) symbol tfs tf direction :
  Forall underscoreFree tfs -> underscoreFree tf ->
  direction = "long"%string \/ direction = "short"%string ->
  CombineSignals (DetectAllSignals kc symbol tfs)
    !! (symbol +:+ "_" +:+ tf +:+ "_" +:+ direction)
  = match filter (fun signal => TradingSignal.TimeFrame signal = tf
                                /\ TradingSignal.Direction signal = direction)
                 (DetectAllSignals kc symbol tfs) with
    | [] => None
    | group => Some group
    end.
Proof.
  intros Htfs Htf Hdirection. rewrite CombineSignals_lookup.
  rewrite (filter_equiv_on _ (fun signal => TradingSignal.TimeFrame signal = tf
                                /\ TradingSignal.Direction signal = direction)); [done|].
  apply Forall_forall. intros signal Hin.
  destruct (DetectAllSignals_fields kc symbol tfs signal Hin) as (Hsym & Htime & Hdir).
  rewrite Forall_forall in Htfs.
  pose (probe := TradingSignal.mk symbol tf SignalEngulfing direction 0 0 0
                   ReasonBullishEngulfing).
  change (symbol +:+ "_" +:+ tf +:+ "_" +:+ direction) with (signalKey probe).
  rewrite (signalKey_inj signal probe).
  - unfold sameGroup. cbn. tauto.
  - by apply Htfs.
  - by destruct Hdir as [-> | ->].
  - done.
  - by destruct Hdirection as [-> | ->].
Qed.

Lemma CombineSignals_detected_witness :
  CombineSignals (DetectAllSignals (cache_of "BTC_USDC" "5m" [hammer]) "BTC_USDC" timeFrames)
    !! ("BTC_USDC" +:+ "_" +:+ "5m" +:+ "_" +:+ "long")
  = match filter (fun signal => TradingSignal.TimeFrame signal = "5m"%string
                                /\ TradingSignal.Direction signal = "long"%string)
                 (DetectAllSignals (cache_of "BTC_USDC" "5m" [hammer]) "BTC_USDC" timeFrames)
    with
    | [] => None
    | group => Some group
    end.
Proof.
  apply (CombineSignals_detected (cache_of "BTC_USDC" "5m" [hammer]) "BTC_USDC"
           timeFrames "5m" "long").
  - repeat constructor.
  - reflexivity.
  - left. reflexivity.
Defined.
